(** * TangoLint VS Code extension: diagnostic synchronisation pipeline

    A shallow embedding of [pytangolint-vscode/extension.js] and the
    properties of its output parser, tool resolver, rule mapper, lint
    runner and change-trigger debounce. *)

From Stdlib Require Import ZArith NArith String Ascii DecimalString Sorted.
From stdpp Require Import base option list gmap.

Local Open Scope Z_scope.

(* ====================================================================== *)
(** * JavaScript values used by the extension *)
(* ====================================================================== *)

(** A JavaScript string is a sequence of UTF-16 code units. *)
Abbreviation jsstring := (list N).

(** An ASCII literal of the source, as code units. *)
Definition js (s : string) : jsstring :=
  map N_of_ascii (list_ascii_of_string s).

Definition is_digit (c : N) : bool := ((48 <=? c) && (c <=? 57))%N.

(** ECMAScript LineTerminator: LF, CR, LS, PS. *)
Definition is_line_terminator (c : N) : bool :=
  bool_decide (c ∈ [10; 13; 8232; 8233]%N).

(** ECMAScript WhiteSpace (TAB, VT, FF, SP, NBSP, ZWNBSP and the space
    separators), the characters [String.prototype.trim] strips together
    with the line terminators. *)
Definition is_white_space (c : N) : bool :=
  bool_decide (c ∈ [9; 11; 12; 32; 160; 5760; 8192; 8193; 8194; 8195; 8196;
                    8197; 8198; 8199; 8200; 8201; 8202; 8239; 8287; 12288;
                    65279]%N).

Definition is_trimmable (c : N) : bool :=
  is_white_space c || is_line_terminator c.

Fixpoint trimStart (s : jsstring) : jsstring :=
  match s with
  | c :: s' => if is_trimmable c then trimStart s' else s
  | [] => []
  end.

Definition trimEnd (s : jsstring) : jsstring := rev (trimStart (rev s)).

(** [s.trim()] *)
Definition trim (s : jsstring) : jsstring := trimEnd (trimStart s).

(** [s.split(sep)] for a separator of one code unit: the pieces between
    the occurrences of [sep]; the empty string gives one empty piece. *)
Fixpoint split (sep : N) (s : jsstring) : list jsstring :=
  match s with
  | [] => [[]]
  | c :: s' =>
      if (c =? sep)%N then [] :: split sep s'
      else match split sep s' with
           | piece :: pieces => (c :: piece) :: pieces
           | [] => [[c]]
           end
  end.

Definition LF : N := 10%N.


(** Value of the longest prefix of decimal digits, most significant first. *)
Fixpoint parseDigits (acc : Z) (s : jsstring) : Z :=
  match s with
  | c :: s' =>
      if is_digit c then parseDigits (acc * 10 + Z.of_N (c - 48)) s' else acc
  | [] => acc
  end.

(** [parseInt(s, 10)]: leading white space is skipped, a sign is read, then
    the longest run of decimal digits; [None] stands for [NaN] (no digit).
    A Number is an IEEE double: the integer computed here is the value
    JavaScript holds whenever its magnitude is at most [MAX_SAFE_INTEGER].
    Beyond that JavaScript rounds to the nearest double (to [Infinity] from
    2^1024 on) and this function keeps the exact integer, so a statement
    about the value of a coordinate is made under that bound. *)
Definition parseInt (s : jsstring) : option Z :=
  let s := trimStart s in
  let '(sign, s) :=
    match s with
    | 45%N :: s' => (-1, s')
    | 43%N :: s' => (1, s')
    | _ => (1, s)
    end in
  match s with
  | c :: _ => if is_digit c then Some (sign * parseDigits 0 s) else None
  | [] => None
  end.

(** Decimal rendering of a count inside a template literal. *)
Definition numberToString (n : nat) : jsstring :=
  js (NilZero.string_of_uint (Nat.to_uint n)).

(* ====================================================================== *)
(** * Regular expressions: the fragment [ISSUE_RE] is written in *)
(* ====================================================================== *)

(** Single-character atoms. *)
Inductive cset : Type :=
  | CAny                        (* [.]  : anything but a line terminator *)
  | CDigit                      (* [\d] *)
  | CRange (lo hi : N).         (* [[lo-hi]] *)

Definition cset_mem (c : cset) (x : N) : bool :=
  match c with
  | CAny => negb (is_line_terminator x)
  | CDigit => is_digit x
  | CRange lo hi => ((lo <=? x) && (x <=? hi))%N
  end.

(** Patterns.  The quantifiers of [ISSUE_RE] all apply to a one-character
    atom, so [RStar] and [RPlus] take a [cset]; both are greedy. *)
Inductive regex : Type :=
  | RBol                        (* [^], no multiline flag *)
  | REol                        (* [$], no multiline flag *)
  | RLit (l : jsstring)
  | RSet (c : cset)
  | RStar (c : cset)
  | RPlus (c : cset)
  | RSeq (r1 r2 : regex)
  | RAlt (r1 r2 : regex)
  | RGroup (n : nat) (r : regex).

Declare Scope regex_scope.
Delimit Scope regex_scope with re.
Bind Scope regex_scope with regex.
Infix ">>" := RSeq (at level 65, right associativity) : regex_scope.

(** Captures: group number to captured substring; group 0 is the match. *)
Abbreviation captures := (gmap nat jsstring).

(** A continuation receives the index reached, the rest of the input and
    the captures so far. *)
Definition cont : Type := nat -> jsstring -> captures -> option captures.

Fixpoint strip_prefix (l s : jsstring) : option jsstring :=
  match l, s with
  | [], _ => Some s
  | a :: l', b :: s' => if (a =? b)%N then strip_prefix l' s' else None
  | _ :: _, [] => None
  end.

(** Greedy repetition: take one more character first, give it back when the
    continuation fails. *)
Fixpoint rstar (c : cset) (i : nat) (s : jsstring) (cs : captures) (k : cont)
  : option captures :=
  match s with
  | x :: s' =>
      if cset_mem c x then
        match rstar c (S i) s' cs k with
        | Some r => Some r
        | None => k i s cs
        end
      else k i s cs
  | [] => k i s cs
  end.

(** The backtracking matcher of ECMAScript, in continuation-passing style:
    the first alternative that lets the continuation succeed wins. *)
Fixpoint rmatch (r : regex) (i : nat) (s : jsstring) (cs : captures) (k : cont)
  : option captures :=
  match r with
  | RBol => if (i =? 0)%nat then k i s cs else None
  | REol => match s with [] => k i s cs | _ :: _ => None end
  | RLit l =>
      match strip_prefix l s with
      | Some s' => k (i + length l)%nat s' cs
      | None => None
      end
  | RSet c =>
      match s with
      | x :: s' => if cset_mem c x then k (S i) s' cs else None
      | [] => None
      end
  | RStar c => rstar c i s cs k
  | RPlus c =>
      match s with
      | x :: s' => if cset_mem c x then rstar c (S i) s' cs k else None
      | [] => None
      end
  | RSeq r1 r2 => rmatch r1 i s cs (fun i' s' cs' => rmatch r2 i' s' cs' k)
  | RAlt r1 r2 =>
      match rmatch r1 i s cs k with
      | Some m => Some m
      | None => rmatch r2 i s cs k
      end
  | RGroup n r1 =>
      rmatch r1 i s cs
        (fun i' s' cs' => k i' s' (<[n := take (i' - i) s]> cs'))
  end.

(** One attempt at start index [i], the rest of the input being [s]. *)
Definition attempt (r : regex) (i : nat) (s : jsstring) : option captures :=
  rmatch r i s ∅ (fun i' _ cs => Some (<[0%nat := take (i' - i) s]> cs)).

(** [RegExp.prototype.exec] without the global flag: start indices are
    tried from the left. *)
Fixpoint exec_from (r : regex) (i : nat) (s : jsstring) : option captures :=
  match attempt r i s with
  | Some m => Some m
  | None =>
      match s with
      | [] => None
      | _ :: s' => exec_from r (S i) s'
      end
  end.

(** [str.match(re)] for a non-global [re]. *)
Definition str_match (s : jsstring) (r : regex) : option captures :=
  exec_from r 0 s.

(* ====================================================================== *)
(** * The editor API the extension calls *)
(* ====================================================================== *)

Inductive DiagnosticSeverity : Type := Error | Warning | Information | Hint.

#[global] Instance DiagnosticSeverity_eq_dec : EqDecision DiagnosticSeverity.
Proof. solve_decision. Defined.

Record Position : Type := { line : Z; character : Z }.

Record Range : Type := { range_start : Position; range_end : Position }.

(** [new Position(line, character)]: a negative coordinate is an illegal
    argument, the constructor throws ([None]). *)
Definition newPosition (l c : Z) : option Position :=
  if (l <? 0) || (c <? 0) then None
  else Some {| line := l; character := c |}.

Definition isBefore (p q : Position) : bool :=
  (line p <? line q) || ((line p =? line q) && (character p <? character q)).

(** [new Range(startLine, startCharacter, endLine, endCharacter)]: builds
    the two positions; as the API documents, when the start is not before
    the end the two are swapped. *)
Definition newRange (sl sc el ec : Z) : option Range :=
  p ← newPosition sl sc;
  q ← newPosition el ec;
  Some (if isBefore p q then {| range_start := p; range_end := q |}
        else {| range_start := q; range_end := p |}).

Record Diagnostic : Type := {
  range : Range;
  message : jsstring;
  severity : DiagnosticSeverity;
  source : jsstring;
  code : jsstring
}.

(* ====================================================================== *)
(** * Parsing *)
(* ====================================================================== *)

(** The source pattern, group by group:
    [^(P):(\d+):(\d+): (error|warning|info): ([A-Z]\d+) (.+)$]
    where [P] is the greedy dot-star. *)
Definition ISSUE_RE : regex :=
  (RBol >> RGroup 1 (RStar CAny) >> RLit (js ":") >>
   RGroup 2 (RPlus CDigit) >> RLit (js ":") >>
   RGroup 3 (RPlus CDigit) >> RLit (js ": ") >>
   RGroup 4 (RAlt (RLit (js "error"))
             (RAlt (RLit (js "warning")) (RLit (js "info")))) >>
   RLit (js ": ") >>
   RGroup 5 (RSet (CRange 65 90) >> RPlus CDigit) >> RLit (js " ") >>
   RGroup 6 (RPlus CAny) >> REol)%re.

Definition toVSCodeSeverity (severity : jsstring) : DiagnosticSeverity :=
  if decide (severity = js "error") then Error
  else if decide (severity = js "warning") then Warning
  else Information.

(** The body of the [for] loop of [parseOutput], from the match on:
    [None] when the evaluation throws or a coordinate is [NaN]. *)
Definition issueDiagnostic (m : captures) : option Diagnostic :=
  let lineStr := m !!! 2%nat in
  let colStr := m !!! 3%nat in
  let severity := m !!! 4%nat in
  let code := m !!! 5%nat in
  let message := m !!! 6%nat in
  l ← parseInt lineStr;
  c ← parseInt colStr;
  let lineNum := Z.max 0 (l - 1) in
  let colNum := Z.max 0 c in
  range ← newRange lineNum colNum lineNum 9999;
  Some {| range := range;
          message := code ++ js ": " ++ message;
          severity := toVSCodeSeverity severity;
          source := js "tangolint";
          code := code |}.

(** The loop over the lines, [diagnostics] being the array pushed to. *)
Fixpoint parseLines (lines : list jsstring) (diagnostics : list Diagnostic)
  : option (list Diagnostic) :=
  match lines with
  | [] => Some diagnostics
  | line :: rest =>
      match str_match line ISSUE_RE with
      | None => parseLines rest diagnostics
      | Some m =>
          diag ← issueDiagnostic m;
          parseLines rest (diagnostics ++ [diag])
      end
  end.

Definition parseOutput (stdout : jsstring) : option (list Diagnostic) :=
  parseLines (split LF stdout) [].

(* ====================================================================== *)
(** * Documents, configuration and the host environment *)
(* ====================================================================== *)

(** The parts of a [vscode.Uri] the extension reads; [uriString] is what
    [toString()] returns, the key of the timer table and of the diagnostic
    collection. *)
Record Uri : Type := { scheme : jsstring; fsPath : jsstring; uriString : jsstring }.

Record TextDocument : Type := { uri : Uri; languageId : jsstring }.

(** [vscode.workspace.getConfiguration('tangolint')]: string settings and
    boolean settings by name, a setting the user left alone being absent. *)
Record Configuration : Type := {
  strings : gmap jsstring jsstring;
  booleans : gmap jsstring bool
}.

(** [cfg.get(key, dflt)] *)
Definition getString (cfg : Configuration) (key dflt : jsstring) : jsstring :=
  default dflt (strings cfg !! key).

Definition getBoolean (cfg : Configuration) (key : jsstring) (dflt : bool) : bool :=
  default dflt (booleans cfg !! key).

(** What the extension asks of its surroundings: the settings, the file
    system, the workspace, Node's [path] functions, the interpreter the
    Python extension reports ([None] when that extension is missing,
    inactive, or its accessor throws or returns no array) and the outcome
    of copying the bundled scripts ([Some message] when a copy throws). *)
Record Host : Type := {
  configuration : Configuration;
  existsSync : jsstring -> bool;
  getWorkspaceFolder : Uri -> option Uri;
  path_join : jsstring -> jsstring -> jsstring;
  path_dirname : jsstring -> jsstring;
  execCommand : option (list jsstring);
  globalStoragePath : jsstring;
  deployFailure : option jsstring
}.

(** Truthiness of a string. *)
Definition nonEmpty (s : jsstring) : bool :=
  match s with [] => false | _ :: _ => true end.

(* ====================================================================== *)
(** * Path resolution *)
(* ====================================================================== *)

(** Truthiness of a variable that holds a path or [null]. *)
Definition truthyPath (p : option jsstring) : bool :=
  match p with Some (_ :: _) => true | _ => false end.

(** [deployed] is the module variable [deployedLinterPath]. *)
Definition findLinterPath (h : Host) (deployed : option jsstring)
    (document : TextDocument) : option jsstring :=
  let configured := trim (getString (configuration h) (js "linterPath") []) in
  if nonEmpty configured && existsSync h configured then Some configured
  else if truthyPath deployed && from_option (existsSync h) false deployed
  then deployed
  else
    match getWorkspaceFolder h (uri document) with
    | Some wsFolder =>
        let candidate := path_join h (fsPath wsFolder) (js "tangolint.py") in
        if existsSync h candidate then Some candidate else None
    | None => None
    end.

Definition getPythonPath (h : Host) : jsstring :=
  let configured := trim (getString (configuration h) (js "pythonPath") []) in
  if nonEmpty configured then configured
  else
    match execCommand h with
    | Some (first :: _) => first
    | _ => js "python3"
    end.

(* ====================================================================== *)
(** * Disabled-rules helpers *)
(* ====================================================================== *)

Definition ALL_RULE_CODES : list jsstring :=
  map js ["T001"; "T010"; "T011"; "T020"; "T021"; "T022"; "T023"; "T024"; "T025";
          "T030"; "T031"; "T032";
          "G001"; "G002"; "G003"; "G004"; "G005"; "G006"; "G007"; "G008"]%string.

(** [cfg.get(`rules.${code}`, true) === false] *)
Definition ruleDisabled (cfg : Configuration) (code : jsstring) : bool :=
  negb (getBoolean cfg (js "rules." ++ code) true).

Definition getDisabledRules (h : Host) : list jsstring :=
  filter (fun code => ruleDisabled (configuration h) code = true) ALL_RULE_CODES.

(** [getDisabledRules().flatMap(code => ['--disable', code])] *)
Definition disabledArgs (h : Host) : list jsstring :=
  flat_map (fun code => [js "--disable"; code]) (getDisabledRules h).

(* ====================================================================== *)
(** * Module-level state and the host's queues *)
(* ====================================================================== *)

Record StatusBarItem : Type := {
  text : jsstring;
  tooltip : jsstring;
  visible : bool
}.

(** A pending [setTimeout] of the change handler: its handle, the time it
    is due, and the [key] and [doc] its callback closes over. *)
Record Timer : Type := {
  tid : nat;
  due : Z;
  tkey : jsstring;
  tdoc : TextDocument
}.

(** One [cp.execFile] call: the command, its options, the time of the call
    and the [document] the completion callback closes over. *)
Record Process : Type := {
  pid : nat;
  file : jsstring;
  args : list jsstring;
  cwd : jsstring;
  maxBuffer : Z;
  started : Z;
  target : TextDocument
}.

(** The module variables ([deployedLinterPath], [diagnosticCollection],
    [statusBarItem], [debounceTimers]) and, on the host's side, the clock
    in milliseconds, the timer queue, the subprocesses started and those
    whose callback is still to come, the console and the error popups. *)
Record State : Type := {
  deployedLinterPath : option jsstring;
  diagnosticCollection : gmap jsstring (list Diagnostic);
  statusBarItem : StatusBarItem;
  debounceTimers : gmap jsstring nat;
  subscribed : bool;
  clock : Z;
  timerQueue : list Timer;
  nextTimer : nat;
  launches : list Process;
  running : list Process;
  consoleErrors : list (list jsstring);
  errorMessages : list jsstring
}.

Definition setDiagnostics (f : gmap jsstring (list Diagnostic) -> gmap jsstring (list Diagnostic))
    (st : State) : State :=
  {| deployedLinterPath := deployedLinterPath st;
     diagnosticCollection := f (diagnosticCollection st);
     statusBarItem := statusBarItem st;
     debounceTimers := debounceTimers st;
     subscribed := subscribed st;
     clock := clock st;
     timerQueue := timerQueue st;
     nextTimer := nextTimer st;
     launches := launches st;
     running := running st;
     consoleErrors := consoleErrors st;
     errorMessages := errorMessages st |}.

Definition setStatusBar (f : StatusBarItem -> StatusBarItem) (st : State) : State :=
  {| deployedLinterPath := deployedLinterPath st;
     diagnosticCollection := diagnosticCollection st;
     statusBarItem := f (statusBarItem st);
     debounceTimers := debounceTimers st;
     subscribed := subscribed st;
     clock := clock st;
     timerQueue := timerQueue st;
     nextTimer := nextTimer st;
     launches := launches st;
     running := running st;
     consoleErrors := consoleErrors st;
     errorMessages := errorMessages st |}.

Definition setDebounceTimers (f : gmap jsstring nat -> gmap jsstring nat)
    (st : State) : State :=
  {| deployedLinterPath := deployedLinterPath st;
     diagnosticCollection := diagnosticCollection st;
     statusBarItem := statusBarItem st;
     debounceTimers := f (debounceTimers st);
     subscribed := subscribed st;
     clock := clock st;
     timerQueue := timerQueue st;
     nextTimer := nextTimer st;
     launches := launches st;
     running := running st;
     consoleErrors := consoleErrors st;
     errorMessages := errorMessages st |}.

Definition setClock (t : Z) (st : State) : State :=
  {| deployedLinterPath := deployedLinterPath st;
     diagnosticCollection := diagnosticCollection st;
     statusBarItem := statusBarItem st;
     debounceTimers := debounceTimers st;
     subscribed := subscribed st;
     clock := t;
     timerQueue := timerQueue st;
     nextTimer := nextTimer st;
     launches := launches st;
     running := running st;
     consoleErrors := consoleErrors st;
     errorMessages := errorMessages st |}.

Definition setTimerQueue (q : list Timer) (next : nat) (st : State) : State :=
  {| deployedLinterPath := deployedLinterPath st;
     diagnosticCollection := diagnosticCollection st;
     statusBarItem := statusBarItem st;
     debounceTimers := debounceTimers st;
     subscribed := subscribed st;
     clock := clock st;
     timerQueue := q;
     nextTimer := next;
     launches := launches st;
     running := running st;
     consoleErrors := consoleErrors st;
     errorMessages := errorMessages st |}.

Definition setProcesses (all live : list Process) (st : State) : State :=
  {| deployedLinterPath := deployedLinterPath st;
     diagnosticCollection := diagnosticCollection st;
     statusBarItem := statusBarItem st;
     debounceTimers := debounceTimers st;
     subscribed := subscribed st;
     clock := clock st;
     timerQueue := timerQueue st;
     nextTimer := nextTimer st;
     launches := all;
     running := live;
     consoleErrors := consoleErrors st;
     errorMessages := errorMessages st |}.

Definition logConsoleError (entry : list jsstring) (st : State) : State :=
  {| deployedLinterPath := deployedLinterPath st;
     diagnosticCollection := diagnosticCollection st;
     statusBarItem := statusBarItem st;
     debounceTimers := debounceTimers st;
     subscribed := subscribed st;
     clock := clock st;
     timerQueue := timerQueue st;
     nextTimer := nextTimer st;
     launches := launches st;
     running := running st;
     consoleErrors := consoleErrors st ++ [entry];
     errorMessages := errorMessages st |}.

(** The host's timers.  The queue is kept in firing order: by due time,
    and by age among timers due together. *)
Fixpoint insertTimer (tm : Timer) (q : list Timer) : list Timer :=
  match q with
  | [] => [tm]
  | x :: q' => if due x <=? due tm then x :: insertTimer tm q' else tm :: q
  end.

(** [setTimeout(callback, delay)]; the handle is returned with the state. *)
Definition setTimeout (delay : Z) (key : jsstring) (doc : TextDocument)
    (st : State) : nat * State :=
  let id := nextTimer st in
  let tm := {| tid := id; due := clock st + delay; tkey := key; tdoc := doc |} in
  (id, setTimerQueue (insertTimer tm (timerQueue st)) (S id) st).

Definition clearTimeout (id : nat) (st : State) : State :=
  setTimerQueue (filter (fun tm => tid tm ≠ id) (timerQueue st)) (nextTimer st) st.

(** [cp.execFile(file, args, {cwd, maxBuffer}, callback)]: the subprocess is
    recorded; its callback runs at a later [ProcessExit]. *)
Definition execFile (file : jsstring) (args : list jsstring) (cwd : jsstring)
    (maxBuffer : Z) (document : TextDocument) (st : State) : State :=
  let p := {| pid := length (launches st); file := file; args := args;
              cwd := cwd; maxBuffer := maxBuffer; started := clock st;
              target := document |} in
  setProcesses (launches st ++ [p]) (running st ++ [p]) st.

(* ====================================================================== *)
(** * Status bar helpers *)
(* ====================================================================== *)

Definition statusRunning (st : State) : State :=
  setStatusBar (fun _ =>
    {| text := js "$(sync~spin) TangoLint";
       tooltip := js "TangoLint: running" ++ [8230%N];
       visible := true |}) st.

Definition countSeverity (sev : DiagnosticSeverity) (diagnostics : list Diagnostic) : nat :=
  length (filter (fun d => severity d = sev) diagnostics).

Definition statusDone (diagnostics : list Diagnostic) (st : State) : State :=
  let errors := countSeverity Error diagnostics in
  let warnings := countSeverity Warning diagnostics in
  setStatusBar (fun item =>
    if (0 <? errors)%nat then
      {| text := js "$(error) TangoLint: " ++ numberToString errors ++ js "E "
                 ++ numberToString warnings ++ js "W";
         tooltip := js "TangoLint: " ++ numberToString errors ++ js " error(s), "
                    ++ numberToString warnings ++ js " warning(s)";
         visible := visible item |}
    else if (0 <? warnings)%nat then
      {| text := js "$(warning) TangoLint: " ++ numberToString warnings ++ js "W";
         tooltip := js "TangoLint: " ++ numberToString warnings ++ js " warning(s)";
         visible := visible item |}
    else
      {| text := js "$(check) TangoLint";
         tooltip := js "TangoLint: no issues";
         visible := visible item |}) st.

Definition statusError (message : jsstring) (st : State) : State :=
  setStatusBar (fun _ =>
    {| text := js "$(alert) TangoLint";
       tooltip := js "TangoLint: " ++ message;
       visible := true |}) st.

(* ====================================================================== *)
(** * Core lint runner *)
(* ====================================================================== *)

Definition eligible (document : TextDocument) : bool :=
  bool_decide (scheme (uri document) = js "file")
  && bool_decide (languageId document = js "python").

(** The completion callback handed to [execFile].  When [parseOutput]
    throws, the callback is left at that point. *)
Definition onExit (document : TextDocument) (stdout stderr : jsstring)
    (st : State) : State :=
  if nonEmpty stderr && nonEmpty (trim stderr) then
    let st := logConsoleError [js "[tangolint]"; trim stderr] st in
    statusError (hd [] (split LF (trim stderr))) st
  else
    match parseOutput stdout with
    | None => st
    | Some diagnostics =>
        let st := setDiagnostics (insert (uriString (uri document)) diagnostics) st in
        statusDone diagnostics st
    end.

Definition lintDocument (h : Host) (document : TextDocument) (st : State) : State :=
  if negb (eligible document) then st
  else
    match findLinterPath h (deployedLinterPath st) document with
    | None | Some [] =>
        setDiagnostics (delete (uriString (uri document))) st
    | Some linterPath =>
        let pythonPath := getPythonPath h in
        let filePath := fsPath (uri document) in
        let st := statusRunning st in
        execFile pythonPath
          ([linterPath; js "--no-color"] ++ disabledArgs h ++ [filePath])
          (path_dirname h linterPath) (1024 * 1024) document st
    end.

(* ====================================================================== *)
(** * Activation and event handlers *)
(* ====================================================================== *)

Definition isPython (document : TextDocument) : bool :=
  bool_decide (languageId document = js "python").

Definition onDidOpenTextDocument (h : Host) (doc : TextDocument) (st : State) : State :=
  if getBoolean (configuration h) (js "lintOnOpen") true
  then lintDocument h doc st else st.

Definition onDidSaveTextDocument (h : Host) (doc : TextDocument) (st : State) : State :=
  if getBoolean (configuration h) (js "lintOnSave") true
  then lintDocument h doc st else st.

(** The callback of the debounce timer. *)
Definition debounceCallback (h : Host) (key : jsstring) (doc : TextDocument)
    (st : State) : State :=
  lintDocument h doc (setDebounceTimers (delete key) st).

(** [if (debounceTimers.has(key)) clearTimeout(debounceTimers.get(key))] *)
Definition cancelPending (key : jsstring) (st : State) : State :=
  match debounceTimers st !! key with
  | Some id => clearTimeout id st
  | None => st
  end.

Definition onDidChangeTextDocument (h : Host) (doc : TextDocument) (st : State) : State :=
  if negb (getBoolean (configuration h) (js "lintOnChange") false) then st
  else if negb (isPython doc) then st
  else
    let key := uriString (uri doc) in
    let st := cancelPending key st in
    let '(id, st) := setTimeout 600 key doc st in
    setDebounceTimers (insert key id) st.

Definition onDidCloseTextDocument (doc : TextDocument) (st : State) : State :=
  let st := setDiagnostics (delete (uriString (uri doc))) st in
  let key := uriString (uri doc) in
  let st := cancelPending key st in
  setDebounceTimers (delete key) st.

Definition onDidChangeActiveTextEditor (editor : option TextDocument) (st : State) : State :=
  setStatusBar (fun item =>
    {| text := text item; tooltip := tooltip item;
       visible := from_option isPython false editor |}) st.

(** The command [tangolint.lintFile]; [editor] is
    [vscode.window.activeTextEditor]. *)
Definition lintFileCommand (h : Host) (editor : option TextDocument) (st : State) : State :=
  match editor with
  | Some document => lintDocument h document st
  | None => st
  end.

(** Before [activate]: nothing stored, nothing subscribed. *)
Definition initial : State :=
  {| deployedLinterPath := None;
     diagnosticCollection := ∅;
     statusBarItem := {| text := []; tooltip := []; visible := false |};
     debounceTimers := ∅;
     subscribed := false;
     clock := 0;
     timerQueue := [];
     nextTimer := 0;
     launches := [];
     running := [];
     consoleErrors := [];
     errorMessages := [] |}.

(** [deployScripts]: the path of the deployed script, or the message of the
    error a copy threw. *)
Definition deployScripts (h : Host) : jsstring + jsstring :=
  match deployFailure h with
  | Some msg => inl msg
  | None => inr (path_join h (globalStoragePath h) (js "tangolint.py"))
  end.

(** [activate]; [textDocuments] are the documents already open and [editor]
    the active editor's document. *)
Definition activate (h : Host) (textDocuments : list TextDocument)
    (editor : option TextDocument) : State :=
  match deployScripts h with
  | inl msg =>
      {| deployedLinterPath := None;
         diagnosticCollection := ∅;
         statusBarItem := statusBarItem initial;
         debounceTimers := ∅;
         subscribed := false;
         clock := 0; timerQueue := []; nextTimer := 0;
         launches := []; running := []; consoleErrors := [];
         errorMessages :=
           [js "TangoLint: failed to deploy scripts " ++ [8212%N] ++ js " " ++ msg] |}
  | inr deployed =>
      let st :=
        {| deployedLinterPath := Some deployed;
           diagnosticCollection := ∅;
           statusBarItem := statusBarItem initial;
           debounceTimers := ∅;
           subscribed := true;
           clock := 0; timerQueue := []; nextTimer := 0;
           launches := []; running := []; consoleErrors := [];
           errorMessages := [] |} in
      let st :=
        if getBoolean (configuration h) (js "lintOnOpen") true
        then foldl (fun st doc => lintDocument h doc st) st textDocuments
        else st in
      if from_option isPython false editor
      then setStatusBar (fun item =>
             {| text := text item; tooltip := tooltip item; visible := true |}) st
      else st
  end.

(* ====================================================================== *)
(** * The event loop *)
(* ====================================================================== *)

(** What the host delivers: editor events, the manual command, the end of a
    subprocess with what it wrote, or nothing but the passing of time. *)
Inductive event : Type :=
  | DidOpen (doc : TextDocument)
  | DidSave (doc : TextDocument)
  | DidChange (doc : TextDocument)
  | DidClose (doc : TextDocument)
  | DidChangeActiveEditor (editor : option TextDocument)
  | LintFile (editor : option TextDocument)
  | ProcessExit (p : nat) (stdout stderr : jsstring)
  | Tick.

Definition handle (h : Host) (ev : event) (st : State) : State :=
  if negb (subscribed st) then st
  else
    match ev with
    | DidOpen doc => onDidOpenTextDocument h doc st
    | DidSave doc => onDidSaveTextDocument h doc st
    | DidChange doc => onDidChangeTextDocument h doc st
    | DidClose doc => onDidCloseTextDocument doc st
    | DidChangeActiveEditor editor => onDidChangeActiveTextEditor editor st
    | LintFile editor => lintFileCommand h editor st
    | ProcessExit p stdout stderr =>
        match List.find (fun q => Nat.eqb (pid q) p) (running st) with
        | Some q =>
            onExit (target q) stdout stderr
              (setProcesses (launches st)
                 (filter (fun q => pid q ≠ p) (running st)) st)
        | None => st
        end
    | Tick => st
    end.

(** Fires, in queue order, the timers due at [t] or earlier; each callback
    runs with the clock at its timer's due time.  The callbacks of this
    extension start no timer, so one pass over the queue's length is all
    there is to fire. *)
Fixpoint runTimers (h : Host) (fuel : nat) (t : Z) (st : State) : State :=
  match fuel with
  | O => st
  | S fuel' =>
      match timerQueue st with
      | tm :: rest =>
          if due tm <=? t then
            let st := setClock (Z.max (clock st) (due tm)) st in
            let st := setTimerQueue rest (nextTimer st) st in
            runTimers h fuel' t (debounceCallback h (tkey tm) (tdoc tm) st)
          else st
      | [] => st
      end
  end.

(** Time passes until [t]. *)
Definition advance (h : Host) (t : Z) (st : State) : State :=
  let st := runTimers h (length (timerQueue st)) t st in
  setClock (Z.max (clock st) t) st.

(** An event delivered at time [t]: the timers due by then fire first. *)
Definition step (h : Host) (st : State) (e : Z * event) : State :=
  handle h e.2 (advance h e.1 st).

Definition run (h : Host) (st : State) (trace : list (Z * event)) : State :=
  foldl (step h) st trace.

(* ====================================================================== *)
(** * Specification-side definitions *)
(* ====================================================================== *)

(** A non-empty run of decimal digits. *)
Definition isNumber (s : jsstring) : bool :=
  nonEmpty s && forallb is_digit s.


(** The code vocabulary: one uppercase letter followed by digits. *)
Definition isRuleCode (s : jsstring) : bool :=
  match s with
  | letter :: ds => ((65 <=? letter) && (letter <=? 90))%N && isNumber ds
  | [] => false
  end.

Definition isSeverityWord (s : jsstring) : bool :=
  bool_decide (s ∈ [js "error"; js "warning"; js "info"]).

(** The line grammar [<path>:<line>:<col>: <severity>: <code> <message>]
    with its six fields named. *)
Definition issueLine (l path lineStr colStr sev code msg : jsstring) : Prop :=
  l = path ++ js ":" ++ lineStr ++ js ":" ++ colStr ++ js ": " ++ sev
        ++ js ": " ++ code ++ js " " ++ msg
  ∧ isNumber lineStr = true ∧ isNumber colStr = true
  ∧ isSeverityWord sev = true ∧ isRuleCode code = true ∧ nonEmpty msg = true.

Definition matchesGrammar (l : jsstring) : Prop :=
  ∃ path lineStr colStr sev code msg, issueLine l path lineStr colStr sev code msg.

(** The resolver's candidates in order of precedence: the configured path,
    the deployed copy, the copy in the root of the document's workspace. *)
Definition candidates (h : Host) (deployed : option jsstring)
    (document : TextDocument) : list jsstring :=
  let configured := trim (getString (configuration h) (js "linterPath") []) in
  (if nonEmpty configured then [configured] else [])
  ++ (match deployed with Some (c :: d) => [c :: d] | _ => [] end)
  ++ (match getWorkspaceFolder h (uri document) with
      | Some wsFolder => [path_join h (fsPath wsFolder) (js "tangolint.py")]
      | None => []
      end).

(** One [--disable <code>] pair. *)
Definition disablePair (code : jsstring) : list jsstring := [js "--disable"; code].

(** Declarative reading of a pattern: from index [i], input [s] and
    captures [cs], the pattern can consume up to index [i'], leaving [s']
    and captures [cs']. *)
Fixpoint denotes (r : regex) (i : nat) (s : jsstring) (cs : captures)
    (i' : nat) (s' : jsstring) (cs' : captures) : Prop :=
  match r with
  | RBol => i = 0%nat ∧ i' = i ∧ s' = s ∧ cs' = cs
  | REol => s = [] ∧ i' = i ∧ s' = s ∧ cs' = cs
  | RLit l => s = l ++ s' ∧ i' = (i + length l)%nat ∧ cs' = cs
  | RSet c => ∃ x, s = x :: s' ∧ cset_mem c x = true ∧ i' = S i ∧ cs' = cs
  | RStar c =>
      ∃ w, s = w ++ s' ∧ forallb (cset_mem c) w = true
           ∧ i' = (i + length w)%nat ∧ cs' = cs
  | RPlus c =>
      ∃ w, s = w ++ s' ∧ nonEmpty w = true ∧ forallb (cset_mem c) w = true
           ∧ i' = (i + length w)%nat ∧ cs' = cs
  | RSeq r1 r2 =>
      ∃ j t ds, denotes r1 i s cs j t ds ∧ denotes r2 j t ds i' s' cs'
  | RAlt r1 r2 => denotes r1 i s cs i' s' cs' ∨ denotes r2 i s cs i' s' cs'
  | RGroup n r1 =>
      ∃ ds, denotes r1 i s cs i' s' ds ∧ cs' = <[n := take (i' - i) s]> ds
  end.

(** What one line of the report contributes to the array. *)
Definition lineDiagnostics (l : jsstring) : list Diagnostic :=
  match str_match l ISSUE_RE with
  | Some m => match issueDiagnostic m with Some d => [d] | None => [] end
  | None => []
  end.

(** The first line of a text: what precedes its first line feed. *)
Fixpoint firstLine (s : jsstring) : jsstring :=
  match s with
  | [] => []
  | c :: s' => if (c =? LF)%N then [] else c :: firstLine s'
  end.

(* ====================================================================== *)
(** * Sample documents and environments *)
(* ====================================================================== *)

Definition fileUri (p : string) : Uri :=
  {| scheme := js "file"; fsPath := js p; uriString := js "file://" ++ js p |}.

Definition devDocument : TextDocument :=
  {| uri := fileUri "/ws/dev.py"; languageId := js "python" |}.

Definition otherDocument : TextDocument :=
  {| uri := fileUri "/ws/other.py"; languageId := js "python" |}.

Definition notesDocument : TextDocument :=
  {| uri := fileUri "/ws/notes.txt"; languageId := js "plaintext" |}.

(** [devDocument] after its language mode was changed to plain text: the
    editor reports the change as a close of the document followed by an
    open of it with the new language. *)
Definition devAsText : TextDocument :=
  {| uri := uri devDocument; languageId := js "plaintext" |}.

Definition untitledDocument : TextDocument :=
  {| uri := {| scheme := js "untitled"; fsPath := js "Untitled-1";
               uriString := js "untitled:Untitled-1" |};
     languageId := js "python" |}.

Definition posixJoin (a b : jsstring) : jsstring := a ++ js "/" ++ b.

Fixpoint afterSlash (s : jsstring) : jsstring :=
  match s with
  | [] => []
  | c :: s' => if (c =? 47)%N then s' else afterSlash s'
  end.

(** The directory of an absolute POSIX path: what precedes its last slash. *)
Definition posixDirname (p : jsstring) : jsstring :=
  match rev (afterSlash (rev p)) with
  | [] => js "/"
  | d => d
  end.

(** A host with the given string and boolean settings, the given files on
    disk, and [/ws] as the workspace of every document. *)
Definition sampleHost (strs : list (string * string)) (bools : list (string * bool))
    (files : list string) : Host :=
  {| configuration :=
       {| strings := list_to_map (map (fun kv => (js kv.1, js kv.2)) strs);
          booleans := list_to_map (map (fun kv => (js kv.1, kv.2)) bools) |};
     existsSync := fun p => bool_decide (p ∈ map js files);
     getWorkspaceFolder := fun _ => Some (fileUri "/ws");
     path_join := posixJoin;
     path_dirname := posixDirname;
     execCommand := None;
     globalStoragePath := js "/store";
     deployFailure := None |}.

(** Deployed copy on disk, change trigger on. *)
Definition deployedHost : Host :=
  sampleHost [] [("lintOnChange", true)]%string ["/store/tangolint.py"]%string.

(** Configured path and deployed copy both on disk. *)
Definition configuredHost : Host :=
  sampleHost [("linterPath", " /opt/tangolint.py ")]%string []
             ["/opt/tangolint.py"; "/store/tangolint.py"]%string.

(** Only the copy in the workspace root on disk. *)
Definition legacyHost : Host :=
  sampleHost [] [] ["/ws/tangolint.py"]%string.

(** No copy of the analyzer anywhere. *)
Definition bareHost : Host := sampleHost [] [] [].

(** Two rules switched off. *)
Definition quietHost : Host :=
  sampleHost [] [("rules.T024", false); ("rules.G007", false); ("rules.T001", true)]%string
             ["/store/tangolint.py"]%string.

(* ====================================================================== *)
(** * Observations on a run and the invariants of the event loop *)
(* ====================================================================== *)

(** The analyzer runs started so far for the document identity [key]. *)
Definition launchesFor (key : jsstring) (st : State) : list Process :=
  filter (fun p => uriString (uri (target p)) = key) (launches st).

(** The timers waiting for the document identity [key]. *)
Definition pendingFor (key : jsstring) (st : State) : list Timer :=
  filter (fun tm => tkey tm = key) (timerQueue st).

(** Change events for [doc] at the given times. *)
Definition burst (doc : TextDocument) (times : list Z) : list (Z * event) :=
  map (fun t => (t, DidChange doc)) times.

(** Consecutive times less than [w] apart, resp. more than [w] apart. *)
Fixpoint closerThan (w : Z) (t : Z) (times : list Z) : Prop :=
  match times with
  | [] => True
  | t' :: rest => t ≤ t' ∧ t' < t + w ∧ closerThan w t' rest
  end.

Fixpoint furtherThan (w : Z) (t : Z) (times : list Z) : Prop :=
  match times with
  | [] => True
  | t' :: rest => t + w < t' ∧ furtherThan w t' rest
  end.

(** When the debounce timer fires for change events at [t] and then at
    [times] (in time order), each event's timer being due 600 ms later and
    cancelled by the next event unless it has fired by then. *)
Fixpoint firingsFrom (t : Z) (times : list Z) : list Z :=
  match times with
  | [] => [t + 600]
  | t' :: rest =>
      (if t + 600 <=? t' then [t + 600] else []) ++ firingsFrom t' rest
  end.

Fixpoint nondecreasing (t : Z) (times : list Z) : Prop :=
  match times with
  | [] => True
  | t' :: rest => t ≤ t' ∧ nondecreasing t' rest
  end.

(** The timer table and the host's queue agree: the queue is in firing
    order, every queued timer is the one registered for its key, which is
    the identity of its document, handles are not reused, and a handle in
    the table belongs to no timer of another key. *)
Definition timersOkOn (q : list Timer) (table : gmap jsstring nat) (next : nat) : Prop :=
  StronglySorted (fun a b => due a ≤ due b) q
  ∧ NoDup (map tid q)
  ∧ (∀ tm, tm ∈ q →
       table !! tkey tm = Some (tid tm)
       ∧ (tid tm < next)%nat
       ∧ tkey tm = uriString (uri (tdoc tm)))
  ∧ ∀ key id, table !! key = Some id →
      (id < next)%nat ∧ ∀ tm, tm ∈ q → tid tm = id → tkey tm = key.

Definition timersOk (st : State) : Prop :=
  timersOkOn (timerQueue st) (debounceTimers st) (nextTimer st).

(** Every subprocess was started for an eligible document, the pending
    callbacks belong to started subprocesses, and every stored diagnostic
    set is keyed by the identity of a document a subprocess was started
    for. *)
Definition storeOk (st : State) : Prop :=
  (∀ p, p ∈ launches st → eligible (target p) = true)
  ∧ (∀ p, p ∈ running st → p ∈ launches st)
  ∧ ∀ key, is_Some (diagnosticCollection st !! key) →
      ∃ p, p ∈ launches st ∧ uriString (uri (target p)) = key.

(** The state in which the callback of the queue's head runs. *)
Definition fireHead (h : Host) (tm : Timer) (rest : list Timer) (st : State) : State :=
  debounceCallback h (tkey tm) (tdoc tm)
    (setTimerQueue rest (nextTimer st) (setClock (Z.max (clock st) (due tm)) st)).

(** The queued timers of [key], if any, are for [doc] and not overdue. *)
Definition ownTimersOk (key : jsstring) (doc : TextDocument) (st : State) : Prop :=
  ∀ tm, tm ∈ timerQueue st → tkey tm = key → tdoc tm = doc ∧ clock st ≤ due tm.

(** The debounce timer of [doc] is pending, set by a change event at [t]. *)
Definition armed (dep : option jsstring) (doc : TextDocument) (t : Z) (st : State) : Prop :=
  timersOk st ∧ subscribed st = true ∧ deployedLinterPath st = dep ∧ clock st = t
  ∧ ∃ id, pendingFor (uriString (uri doc)) st
          = [{| tid := id; due := t + 600; tkey := uriString (uri doc); tdoc := doc |}].

(* ====================================================================== *)
(** * Further definitions for the properties beyond the claims *)
(* ====================================================================== *)

(** What follows the path group in [ISSUE_RE]. *)
Definition issueTail : regex :=
  (RLit (js ":") >>
   RGroup 2 (RPlus CDigit) >> RLit (js ":") >>
   RGroup 3 (RPlus CDigit) >> RLit (js ": ") >>
   RGroup 4 (RAlt (RLit (js "error"))
             (RAlt (RLit (js "warning")) (RLit (js "info")))) >>
   RLit (js ": ") >>
   RGroup 5 (RSet (CRange 65 90) >> RPlus CDigit) >> RLit (js " ") >>
   RGroup 6 (RPlus CAny) >> REol)%re.

(** No character the pattern can consume is a line terminator. *)
Definition csetTermFree (c : cset) : bool :=
  match c with
  | CAny | CDigit => true
  | CRange lo hi => ((13 <? lo) && (hi <? 8232))%N
  end.

Fixpoint termFree (r : regex) : bool :=
  match r with
  | RBol | REol => true
  | RLit l => forallb (fun c => negb (is_line_terminator c)) l
  | RSet c | RStar c | RPlus c => csetTermFree c
  | RSeq r1 r2 | RAlt r1 r2 => termFree r1 && termFree r2
  | RGroup _ r1 => termFree r1
  end.

(** The pattern can only end at the end of the input. *)
Fixpoint anchoredEnd (r : regex) : bool :=
  match r with
  | REol => true
  | RSeq _ r2 => anchoredEnd r2
  | RAlt r1 r2 => anchoredEnd r1 && anchoredEnd r2
  | RGroup _ r1 => anchoredEnd r1
  | _ => false
  end.

(** The numbers of the groups of a pattern. *)
Fixpoint groups (r : regex) : list nat :=
  match r with
  | RSeq r1 r2 | RAlt r1 r2 => groups r1 ++ groups r2
  | RGroup n r1 => n :: groups r1
  | _ => []
  end.

(** A text of white space and line terminators only (the empty text too). *)
Definition blank (s : jsstring) : bool := forallb is_trimmable s.

(** The resolver finds an analyzer for the document. *)
Definition resolves (h : Host) (deployed : option jsstring) (document : TextDocument) : bool :=
  truthyPath (findLinterPath h deployed document).

(** [deactivate]: every timer of the table is cleared, the table and the
    diagnostic collection are emptied and, with the collection, the status
    bar item is disposed of.  The timers are cleared in the order of the
    table's keys; clearing is a removal by handle, so the order does not
    show in the result. *)
Definition deactivate (st : State) : State :=
  let timers := map snd (map_to_list (debounceTimers st)) in
  let st := foldl (fun st timer => clearTimeout timer st) st timers in
  let st := setDebounceTimers (fun _ => ∅) st in
  let st := setDiagnostics (fun _ => ∅) st in
  setStatusBar (fun item =>
    {| text := text item; tooltip := tooltip item; visible := false |}) st.

(** Every entry of the timer table has its timer in the queue. *)
Definition tableLive (st : State) : Prop :=
  ∀ key id, debounceTimers st !! key = Some id →
    ∃ tm, tm ∈ timerQueue st ∧ tid tm = id ∧ tkey tm = key.

(* ====================================================================== *)
(** * The matcher is sound for the declarative reading *)
(* ====================================================================== *)

Section RegexSoundness.

Lemma strip_prefix_Some l s s' : strip_prefix l s = Some s' → s = l ++ s'.
Proof.
  revert s. induction l as [|a l IH]; intros [|b s] H; simpl in H; try congruence.
  - by inversion H.
  - by inversion H.
  - destruct (N.eqb_spec a b) as [->|]; [|done].
    simpl. f_equal. by apply IH.
Qed.

Lemma rstar_sound c i s cs k m :
  rstar c i s cs k = Some m →
  ∃ w s', s = w ++ s' ∧ forallb (cset_mem c) w = true
          ∧ k (i + length w)%nat s' cs = Some m.
Proof.
  revert i. induction s as [|x s IH]; intros i H; simpl in H.
  - exists [], []. rewrite Nat.add_0_r. done.
  - destruct (cset_mem c x) eqn:Hx.
    + destruct (rstar c (S i) s cs k) as [m'|] eqn:Hr.
      * inversion H; subst m'. destruct (IH _ Hr) as (w & s' & -> & Hw & Hk).
        exists (x :: w), s'. simpl. rewrite Hx, Hw.
        replace (i + S (length w))%nat with (S i + length w)%nat by lia. done.
      * exists [], (x :: s). rewrite Nat.add_0_r. done.
    + exists [], (x :: s). rewrite Nat.add_0_r. done.
Qed.

Lemma rmatch_sound r : ∀ i s cs k m,
  rmatch r i s cs k = Some m →
  ∃ i' s' cs', denotes r i s cs i' s' cs' ∧ k i' s' cs' = Some m.
Proof.
  induction r as [| |l|c|c|c|r1 IH1 r2 IH2|r1 IH1 r2 IH2|n r IH];
    intros i s cs k m H; simpl in H.
  - destruct (Nat.eqb_spec i 0); [|done]. by exists i, s, cs.
  - destruct s; [|done]. by exists i, [], cs.
  - destruct (strip_prefix l s) as [s'|] eqn:Hp; [|done].
    apply strip_prefix_Some in Hp. by exists (i + length l)%nat, s', cs.
  - destruct s as [|x s]; [done|]. destruct (cset_mem c x) eqn:Hx; [|done].
    exists (S i), s, cs. split; [|done]. by exists x.
  - apply rstar_sound in H as (w & s' & -> & Hw & Hk).
    exists (i + length w)%nat, s', cs. split; [|done]. by exists w.
  - destruct s as [|x s]; [done|]. destruct (cset_mem c x) eqn:Hx; [|done].
    apply rstar_sound in H as (w & s' & -> & Hw & Hk).
    exists (S i + length w)%nat, s', cs. split; [|done].
    exists (x :: w). simpl. rewrite Hx, Hw. repeat split; auto with lia.
  - apply IH1 in H as (j & t & ds & H1 & H).
    apply IH2 in H as (i' & s' & cs' & H2 & H).
    exists i', s', cs'. split; [|done]. by exists j, t, ds.
  - destruct (rmatch r1 i s cs k) as [m'|] eqn:H1.
    + inversion H; subst m'. apply IH1 in H1 as (i' & s' & cs' & H1 & Hk).
      exists i', s', cs'. split; [by left|done].
    + apply IH2 in H as (i' & s' & cs' & H2 & Hk).
      exists i', s', cs'. split; [by right|done].
  - apply IH in H as (i' & s' & ds & H1 & Hk).
    exists i', s', (<[n := take (i' - i) s]> ds). split; [|done]. by exists ds.
Qed.

Lemma denotes_consumes r : ∀ i s cs i' s' cs',
  denotes r i s cs i' s' cs' → ∃ w, s = w ++ s' ∧ i' = (i + length w)%nat.
Proof.
  induction r as [| |l|c|c|c|r1 IH1 r2 IH2|r1 IH1 r2 IH2|n r IH];
    intros i s cs i' s' cs' H; simpl in H.
  - destruct H as (_ & -> & -> & _). exists []. split; [done|simpl; lia].
  - destruct H as (_ & -> & -> & _). exists []. split; [done|simpl; lia].
  - destruct H as (-> & -> & _). by exists l.
  - destruct H as (x & -> & _ & -> & _). exists [x]. split; [done|simpl; lia].
  - destruct H as (w & -> & _ & -> & _). by exists w.
  - destruct H as (w & -> & _ & _ & -> & _). by exists w.
  - destruct H as (j & t & ds & H1 & H2).
    apply IH1 in H1 as (w1 & -> & ->). apply IH2 in H2 as (w2 & -> & ->).
    exists (w1 ++ w2). rewrite length_app, <- app_assoc. split; [done|lia].
  - destruct H as [H|H]; eauto.
  - destruct H as (ds & H & _). eauto.
Qed.

End RegexSoundness.

(* ====================================================================== *)
(** * What a match of [ISSUE_RE] looks like *)
(* ====================================================================== *)

Lemma exec_from_anchored i s : exec_from ISSUE_RE (S i) s = None.
Proof.
  revert i. induction s as [|x s IH]; intros i; cbn [exec_from].
  - done.
  - change (attempt ISSUE_RE (S i) (x :: s)) with (@None captures). apply IH.
Qed.

Lemma str_match_attempt l : str_match l ISSUE_RE = attempt ISSUE_RE 0 l.
Proof.
  unfold str_match. destruct l as [|x l]; cbn [exec_from].
  - by destruct (attempt ISSUE_RE 0 []).
  - destruct (attempt ISSUE_RE 0 (x :: l)); [done|apply exec_from_anchored].
Qed.

Lemma denotes_group n r i s cs i' s' cs' :
  denotes (RGroup n r) i s cs i' s' cs' →
  ∃ w ds, s = w ++ s' ∧ i' = (i + length w)%nat
          ∧ denotes r i s cs i' s' ds ∧ cs' = <[n := w]> ds.
Proof.
  intros (ds & H & ->). destruct (denotes_consumes _ _ _ _ _ _ _ H) as (w & -> & ->).
  exists w, ds. repeat split; [done|].
  f_equal. replace (i + length w - i)%nat with (length w) by lia.
  by rewrite take_app_length.
Qed.

Lemma forallb_digit_isNumber w :
  nonEmpty w = true → forallb (cset_mem CDigit) w = true → isNumber w = true.
Proof. intros H1 H2. unfold isNumber. by rewrite H1. Qed.

Lemma issue_match_fields l m :
  str_match l ISSUE_RE = Some m →
  ∃ path lineStr colStr sev code msg,
    issueLine l path lineStr colStr sev code msg
    ∧ m !! 1%nat = Some path ∧ m !! 2%nat = Some lineStr
    ∧ m !! 3%nat = Some colStr ∧ m !! 4%nat = Some sev
    ∧ m !! 5%nat = Some code ∧ m !! 6%nat = Some msg.
Proof.
  rewrite str_match_attempt. unfold attempt. intros H.
  apply rmatch_sound in H as (i' & s' & cs' & H & Hm).
  inversion Hm; subst m; clear Hm.
  unfold ISSUE_RE in H.
  destruct H as (i0 & s0 & c0 & Hbol & H). destruct Hbol as (_ & -> & -> & ->).
  destruct H as (i1 & s1 & c1 & Hg1 & H).
  apply denotes_group in Hg1 as (path & d1 & -> & -> & Hp & ->).
  destruct Hp as (w & Hw & _ & _ & ->).
  destruct H as (i2 & s2 & c2 & (-> & -> & ->) & H).
  destruct H as (i3 & s3 & c3 & Hg & H).
  apply denotes_group in Hg as (lineStr & d2 & -> & -> & Hl & ->).
  destruct Hl as (wl & Hwl & Hne_l & Hdl & Hil & ->).
  apply app_inv_tail in Hwl; subst wl.
  destruct H as (i4 & s4 & c4 & (-> & -> & ->) & H).
  destruct H as (i5 & s5 & c5 & Hg & H).
  apply denotes_group in Hg as (colStr & d3 & -> & -> & Hc & ->).
  destruct Hc as (wc & Hwc & Hne_c & Hdc & Hic & ->).
  apply app_inv_tail in Hwc; subst wc.
  destruct H as (i6 & s6 & c6 & (-> & -> & ->) & H).
  destruct H as (i7 & s7 & c7 & Hg & H).
  apply denotes_group in Hg as (sev & d4 & -> & -> & Hs & ->).
  assert (Hsev : isSeverityWord sev = true ∧ d4 = <[3%nat:=colStr]> (<[2%nat:=lineStr]> (<[1%nat:=path]> ∅))).
  { destruct Hs as [(Hs & _ & ->)|[(Hs & _ & ->)|(Hs & _ & ->)]];
      apply app_inv_tail in Hs; subst sev; done. }
  destruct Hsev as (Hsev & ->). clear Hs.
  destruct H as (i8 & s8 & c8 & (-> & -> & ->) & H).
  destruct H as (i9 & s9 & c9 & Hg & H).
  apply denotes_group in Hg as (code & d5 & -> & -> & Hcd & ->).
  destruct Hcd as (j & t & ds & (x & Hx & Hup & -> & ->) & (wd & Hwd & Hne_d & Hdd & _ & ->)).
  subst t.
  assert (code = x :: wd) as ->.
  { apply (app_inv_tail s9). by rewrite Hx. }
  clear Hx.
  destruct H as (i10 & s10 & c10 & (-> & -> & ->) & H).
  destruct H as (i11 & s11 & c11 & Hg & H).
  apply denotes_group in Hg as (msg & d6 & -> & -> & Hmsg & ->).
  destruct Hmsg as (wm & Hwm & Hne_m & _ & _ & ->).
  apply app_inv_tail in Hwm; subst wm.
  destruct H as (-> & -> & -> & ->).
  exists path, lineStr, colStr, sev, (x :: wd), msg.
  split; [|by simplify_map_eq].
  repeat split.
  - by rewrite app_nil_r.
  - by apply forallb_digit_isNumber.
  - by apply forallb_digit_isNumber.
  - done.
  - simpl. simpl in Hup. rewrite Hup. by apply forallb_digit_isNumber.
  - done.
Qed.

(* ====================================================================== *)
(** * Numbers, ranges and the diagnostic of a matched line *)
(* ====================================================================== *)

Lemma parseDigits_nonneg s : ∀ acc, 0 ≤ acc → 0 ≤ parseDigits acc s.
Proof.
  induction s as [|c s IH]; intros acc Hacc; simpl; [done|].
  destruct (is_digit c); [|done]. apply IH. lia.
Qed.

Lemma digit_not_trimmable c : is_digit c = true → is_trimmable c = false.
Proof.
  unfold is_digit. intros [H1 H2]%andb_true_iff.
  apply N.leb_le in H1, H2.
  unfold is_trimmable, is_white_space, is_line_terminator.
  apply orb_false_iff; split; apply bool_decide_eq_false;
    rewrite !elem_of_cons, elem_of_nil; lia.
Qed.

Lemma parseInt_number w :
  isNumber w = true → parseInt w = Some (parseDigits 0 w) ∧ 0 ≤ parseDigits 0 w.
Proof.
  unfold isNumber. intros [Hne Hall]%andb_true_iff.
  split; [|by apply parseDigits_nonneg].
  destruct w as [|c w]; [done|]. simpl in Hall.
  apply andb_true_iff in Hall as [Hc Hw].
  unfold parseInt. cbn [trimStart]. rewrite (digit_not_trimmable c Hc).
  assert (c ≠ 45%N ∧ c ≠ 43%N) as [H45 H43].
  { unfold is_digit in Hc. apply andb_true_iff in Hc as [H1 H2].
    apply N.leb_le in H1, H2. lia. }
  assert (Hsign : (match c :: w with
                   | 45%N :: s' => (-1, s')
                   | 43%N :: s' => (1, s')
                   | _ => (1, c :: w)
                   end) = (1, c :: w)).
  { destruct c as [|p]; [done|].
    do 6 (destruct p as [p|p|]; try done). }
  rewrite Hsign. rewrite Hc. f_equal. lia.
Qed.



Lemma newRange_sentinel a c :
  0 ≤ a → 0 ≤ c →
  newRange a c a 9999
  = Some {| range_start := {| line := a; character := Z.min c 9999 |};
            range_end := {| line := a; character := Z.max c 9999 |} |}.
Proof.
  intros Ha Hc. unfold newRange, newPosition.
  destruct (Z.ltb_spec a 0); [lia|]. destruct (Z.ltb_spec c 0); [lia|].
  simpl. unfold isBefore. simpl.
  rewrite Z.ltb_irrefl, Z.eqb_refl. simpl.
  destruct (Z.ltb_spec c 9999).
  - by rewrite Z.min_l, Z.max_r by lia.
  - by rewrite Z.min_r, Z.max_l by lia.
Qed.

Lemma issueDiagnostic_fields m lineStr colStr sev cd msg :
  m !! 2%nat = Some lineStr → m !! 3%nat = Some colStr →
  m !! 4%nat = Some sev → m !! 5%nat = Some cd → m !! 6%nat = Some msg →
  isNumber lineStr = true → isNumber colStr = true →
  ∃ l c, parseInt lineStr = Some l ∧ parseInt colStr = Some c ∧ 0 ≤ l ∧ 0 ≤ c
    ∧ issueDiagnostic m
      = Some {| range :=
                  {| range_start := {| line := Z.max 0 (l - 1);
                                       character := Z.min c 9999 |};
                     range_end := {| line := Z.max 0 (l - 1);
                                     character := Z.max c 9999 |} |};
                message := cd ++ js ": " ++ msg;
                severity := toVSCodeSeverity sev;
                source := js "tangolint";
                code := cd |}.
Proof.
  intros H2 H3 H4 H5 H6 Hl Hc.
  destruct (parseInt_number _ Hl) as [Hpl Hl0].
  destruct (parseInt_number _ Hc) as [Hpc Hc0].
  exists (parseDigits 0 lineStr), (parseDigits 0 colStr).
  repeat split; try done.
  unfold issueDiagnostic.
  rewrite (lookup_total_correct _ _ _ H2), (lookup_total_correct _ _ _ H3),
    (lookup_total_correct _ _ _ H4), (lookup_total_correct _ _ _ H5),
    (lookup_total_correct _ _ _ H6).
  rewrite Hpl, Hpc. simpl.
  rewrite (Z.max_r 0 (parseDigits 0 colStr)) by done.
  rewrite newRange_sentinel by lia. done.
Qed.

(* ====================================================================== *)
(** * The output parser *)
(* ====================================================================== *)

Lemma matched_line_diagnostic l m :
  str_match l ISSUE_RE = Some m →
  ∃ path lineStr colStr sev cd msg ln col,
    issueLine l path lineStr colStr sev cd msg
    ∧ m !!! 2%nat = lineStr ∧ m !!! 3%nat = colStr
    ∧ parseInt lineStr = Some ln ∧ parseInt colStr = Some col
    ∧ 0 ≤ ln ∧ 0 ≤ col
    ∧ issueDiagnostic m
      = Some {| range :=
                  {| range_start := {| line := Z.max 0 (ln - 1);
                                       character := Z.min col 9999 |};
                     range_end := {| line := Z.max 0 (ln - 1);
                                     character := Z.max col 9999 |} |};
                message := cd ++ js ": " ++ msg;
                severity := toVSCodeSeverity sev;
                source := js "tangolint";
                code := cd |}.
Proof.
  intros Hm.
  destruct (issue_match_fields _ _ Hm)
    as (path & lineStr & colStr & sev & cd & msg & Hline & H1 & H2 & H3 & H4 & H5 & H6).
  pose proof Hline as (_ & Hl & Hc & _).
  destruct (issueDiagnostic_fields m _ _ _ _ _ H2 H3 H4 H5 H6 Hl Hc)
    as (ln & col & Hpl & Hpc & Hln & Hcol & Hd).
  exists path, lineStr, colStr, sev, cd, msg, ln, col.
  repeat split; try done; try apply Hline; by apply lookup_total_correct.
Qed.

Lemma unmatched_outside_grammar l :
  ¬ matchesGrammar l → str_match l ISSUE_RE = None.
Proof.
  intros Hno. destruct (str_match l ISSUE_RE) as [m|] eqn:Hm; [|done].
  destruct Hno.
  destruct (issue_match_fields _ _ Hm) as (p & a & b & c & d & e & H & _).
  by exists p, a, b, c, d, e.
Qed.

(** The loop only ever appends to the array it was given, line by line. *)
Lemma parseLines_flat lines : ∀ acc,
  parseLines lines acc = Some (acc ++ flat_map lineDiagnostics lines).
Proof.
  induction lines as [|l lines IH]; intros acc; simpl.
  - by rewrite app_nil_r.
  - unfold lineDiagnostics at 1.
    destruct (str_match l ISSUE_RE) as [m|] eqn:Hm; [|by rewrite IH].
    destruct (matched_line_diagnostic _ _ Hm)
      as (? & ? & ? & ? & ? & ? & ? & ? & _ & _ & _ & _ & _ & _ & _ & Hd).
    rewrite Hd. simpl. rewrite IH. by rewrite <- app_assoc.
Qed.

Lemma elem_of_flat_lineDiagnostics d lines :
  d ∈ flat_map lineDiagnostics lines ↔
  ∃ l m, l ∈ lines ∧ str_match l ISSUE_RE = Some m ∧ issueDiagnostic m = Some d.
Proof.
  rewrite list_elem_of_In, in_flat_map. split.
  - intros (l & Hl & Hd). apply list_elem_of_In in Hl, Hd.
    unfold lineDiagnostics in Hd.
    destruct (str_match l ISSUE_RE) as [m|] eqn:Hm; [|by apply elem_of_nil in Hd].
    destruct (issueDiagnostic m) as [d'|] eqn:Hd'; [|by apply elem_of_nil in Hd].
    apply list_elem_of_singleton in Hd. subst d'. by exists l, m.
  - intros (l & m & Hl & Hm & Hd). exists l. split; [by apply list_elem_of_In|].
    unfold lineDiagnostics. rewrite Hm, Hd. by left.
Qed.

Lemma parseLines_drop pre l post : ∀ acc,
  str_match l ISSUE_RE = None →
  parseLines (pre ++ l :: post) acc = parseLines (pre ++ post) acc.
Proof.
  induction pre as [|x pre IH]; intros acc Hl; simpl.
  - by rewrite Hl.
  - destruct (str_match x ISSUE_RE); [|by apply IH].
    destruct (issueDiagnostic _); simpl; [by apply IH|done].
Qed.

Lemma parseLines_none lines : ∀ acc,
  (∀ l, l ∈ lines → str_match l ISSUE_RE = None) →
  parseLines lines acc = Some acc.
Proof.
  induction lines as [|l lines IH]; intros acc H; simpl; [done|].
  rewrite (H l) by left. apply IH. intros l' Hl'. apply H. by right.
Qed.

(** C1: the report line of the end-to-end example yields exactly one
    diagnostic: severity Warning, a range starting at 0-based line 9 and
    column 4, code T023 and the message prefixed with the code. *)
Theorem C1_end_to_end_example :
  ∃ d, parseOutput (js "src/dev.py:10:4: warning: T023 Attribute 'foo' needs 'description'")
       = Some [d]
    ∧ severity d = Warning
    ∧ line (range_start (range d)) = 9
    ∧ character (range_start (range d)) = 4
    ∧ code d = js "T023"
    ∧ message d = js "T023: Attribute 'foo' needs 'description'".
Proof. eexists. vm_compute. repeat split. Qed.

(** C2: the parser never fails; a line outside the line grammar
    contributes nothing (the output is what parsing the other lines
    gives); an input without a matching line yields the empty set. *)
Theorem C2_nonmatching_lines_ignored (stdout : jsstring) :
  (∃ ds, parseOutput stdout = Some ds)
  ∧ (∀ pre l post,
       split LF stdout = pre ++ l :: post → ¬ matchesGrammar l →
       parseOutput stdout = parseLines (pre ++ post) [])
  ∧ ((∀ l, l ∈ split LF stdout → ¬ matchesGrammar l) →
     parseOutput stdout = Some []).
Proof.
  unfold parseOutput. repeat split.
  - rewrite parseLines_flat. eauto.
  - intros pre l post -> Hl. apply parseLines_drop.
    by apply unmatched_outside_grammar.
  - intros H. apply parseLines_none. intros l Hl.
    apply unmatched_outside_grammar. by apply H.
Qed.

Lemma grammar_has_colon l : matchesGrammar l → 58%N ∈ l.
Proof.
  intros (p & a & b & c & d & e & -> & _).
  apply elem_of_app. right. by left.
Qed.

Lemma C2_nonmatching_lines_ignored_witness :
  let stdout := js "TangoLint report
a.py:3:1: error: T010 property needs a type

1 issue found" in
  parseOutput stdout
  = parseLines [js "a.py:3:1: error: T010 property needs a type"; []; js "1 issue found"] []
  ∧ parseOutput (js "No issues found") = Some [].
Proof.
  intros stdout. split.
  - apply (proj1 (proj2 (C2_nonmatching_lines_ignored stdout))
             [] (js "TangoLint report")).
    + vm_compute. reflexivity.
    + intros H%grammar_has_colon.
      assert (Hno : 58%N ∉ js "TangoLint report")
        by (apply (bool_decide_eq_false_1 _); vm_compute; reflexivity).
      by apply Hno.
  - apply (proj2 (proj2 (C2_nonmatching_lines_ignored (js "No issues found")))).
    intros l Hl H%grammar_has_colon.
    change (split LF (js "No issues found")) with [js "No issues found"] in Hl.
    apply list_elem_of_singleton in Hl. subst l.
    assert (Hno : 58%N ∉ js "No issues found")
      by (apply (bool_decide_eq_false_1 _); vm_compute; reflexivity).
    by apply Hno.
Defined.




(** C10: a matched line whose line field reads 0 gives a diagnostic at
    0-based line 0, and no diagnostic of any output has a negative line. *)
Theorem C10_line_clamped_at_zero :
  (∀ stdout pre l post m,
     split LF stdout = pre ++ l :: post →
     str_match l ISSUE_RE = Some m → parseInt (m !!! 2%nat) = Some 0 →
     ∃ ds d, parseOutput stdout = Some ds ∧ d ∈ ds
             ∧ issueDiagnostic m = Some d
             ∧ line (range_start (range d)) = 0
             ∧ line (range_end (range d)) = 0)
  ∧ (∀ stdout ds d,
       parseOutput stdout = Some ds → d ∈ ds →
       0 ≤ line (range_start (range d)) ∧ 0 ≤ line (range_end (range d))).
Proof.
  split.
  - intros stdout pre l post m Hsplit Hm Hzero.
    destruct (matched_line_diagnostic _ _ Hm)
      as (path & lineStr & colStr & sev & cd & msg & ln & col
          & Hline & H2 & H3 & Hpl & Hpc & Hln & Hcol & Hd).
    rewrite H2 in Hzero. rewrite Hzero in Hpl. injection Hpl as <-.
    unfold parseOutput. rewrite parseLines_flat. simpl.
    eexists _, _. split; [done|]. split.
    + apply elem_of_flat_lineDiagnostics. exists l, m.
      rewrite Hsplit. split; [|done]. apply elem_of_app. right. left.
    + done.
  - intros stdout ds d. unfold parseOutput. rewrite parseLines_flat.
    intros [= <-] Hd. simpl in Hd.
    apply elem_of_flat_lineDiagnostics in Hd as (l & m & Hl & Hm & Hd).
    destruct (matched_line_diagnostic _ _ Hm)
      as (? & ? & ? & ? & ? & ? & ln & col & _ & _ & _ & _ & _ & _ & _ & Hd').
    rewrite Hd in Hd'. injection Hd' as ->. simpl. lia.
Qed.

Lemma C10_line_clamped_at_zero_witness :
  ∃ ds d, parseOutput (js "a.py:0:3: warning: T020 no docstring") = Some ds
          ∧ d ∈ ds ∧ line (range_start (range d)) = 0
          ∧ 0 ≤ line (range_end (range d)).
Proof.
  destruct (proj1 C10_line_clamped_at_zero
              (js "a.py:0:3: warning: T020 no docstring") []
              (js "a.py:0:3: warning: T020 no docstring") []
              (default ∅ (str_match (js "a.py:0:3: warning: T020 no docstring") ISSUE_RE)))
    as (ds & d & Hp & Hd & _ & Hs & _).
  - vm_compute. reflexivity.
  - vm_compute. reflexivity.
  - vm_compute. reflexivity.
  - exists ds, d. repeat split; try done.
    apply (proj2 C10_line_clamped_at_zero _ _ _ Hp Hd).
Defined.

(* ====================================================================== *)
(** * The rule-configuration mapper *)
(* ====================================================================== *)

Lemma ALL_RULE_CODES_NoDup : NoDup ALL_RULE_CODES.
Proof. apply (bool_decide_unpack _). vm_compute. reflexivity. Qed.

Lemma ruleDisabled_spec cfg code :
  ruleDisabled cfg code = true ↔ booleans cfg !! (js "rules." ++ code) = Some false.
Proof.
  unfold ruleDisabled, getBoolean.
  destruct (booleans cfg !! (js "rules." ++ code)) as [[]|]; simpl; split; congruence.
Qed.

(** C4: the arguments are the [--disable <code>] pairs of a duplicate-free
    list of codes, the registry's disabled codes in registry order; a rule
    that is enabled or not set gets none; the arguments depend on nothing
    but the rule settings. *)
Theorem C4_disable_arguments (h : Host) :
  (∃ disabled : list jsstring,
     disabledArgs h = concat (map disablePair disabled)
     ∧ NoDup disabled
     ∧ sublist disabled ALL_RULE_CODES
     ∧ ∀ code, code ∈ disabled ↔
         code ∈ ALL_RULE_CODES
         ∧ booleans (configuration h) !! (js "rules." ++ code) = Some false)
  ∧ (∀ h',
       (∀ code, code ∈ ALL_RULE_CODES →
          getBoolean (configuration h') (js "rules." ++ code) true
          = getBoolean (configuration h) (js "rules." ++ code) true) →
       disabledArgs h' = disabledArgs h).
Proof.
  split.
  - exists (getDisabledRules h). unfold disabledArgs, getDisabledRules.
    split; [apply flat_map_concat_map|].
    split; [apply NoDup_filter, ALL_RULE_CODES_NoDup|].
    split; [apply sublist_filter|].
    intros code. rewrite list_elem_of_filter, ruleDisabled_spec. tauto.
  - intros h' Hsame. unfold disabledArgs, getDisabledRules. f_equal.
    induction ALL_RULE_CODES as [|c cs IH]; [done|].
    assert (Hc : ruleDisabled (configuration h') c = ruleDisabled (configuration h) c).
    { unfold ruleDisabled. by rewrite (Hsame c) by left. }
    rewrite !filter_cons, IH by (intros code Hin; apply Hsame; by right).
    repeat case_decide; congruence.
Qed.

Lemma C4_disable_arguments_witness :
  disabledArgs quietHost = [js "--disable"; js "T024"; js "--disable"; js "G007"]
  ∧ disabledArgs (sampleHost [("pythonPath", "py")]%string
                    [("rules.G007", false); ("rules.T024", false)]%string [])
    = disabledArgs quietHost.
Proof.
  split; [vm_compute; reflexivity|].
  apply (proj2 (C4_disable_arguments quietHost)).
  intros code Hc. apply list_elem_of_In in Hc. simpl in Hc.
  repeat (destruct Hc as [<-|Hc]; [vm_compute; reflexivity|]). done.
Defined.

(* ====================================================================== *)
(** * The entry-point resolver *)
(* ====================================================================== *)

(** C5, as amended: the resolver returns the first candidate on disk among
    the configured path, the deployed copy and the copy in the workspace
    root, in that order. So a configured path on disk wins over everything;
    without it a deployed copy on disk is returned; when neither is on disk
    the workspace copy is returned if it is on disk and the result is
    unresolved only when it is not. *)
Theorem C5_resolver_precedence (h : Host) (deployed : option jsstring)
    (document : TextDocument) :
  let configured := trim (getString (configuration h) (js "linterPath") []) in
  let legacy :=
    match getWorkspaceFolder h (uri document) with
    | Some wsFolder =>
        Some (path_join h (fsPath wsFolder) (js "tangolint.py"))
    | None => None
    end in
  let onDisk p := from_option (fun s => nonEmpty s && existsSync h s) false p in
  findLinterPath h deployed document
  = List.find (existsSync h) (candidates h deployed document)
  ∧ (onDisk (Some configured) = true →
     findLinterPath h deployed document = Some configured)
  ∧ (onDisk (Some configured) = false → onDisk deployed = true →
     findLinterPath h deployed document = deployed)
  ∧ (onDisk (Some configured) = false → onDisk deployed = false →
     findLinterPath h deployed document
     = match legacy with
       | Some candidate => if existsSync h candidate then Some candidate else None
       | None => None
       end).
Proof.
  intros configured legacy onDisk. unfold findLinterPath, candidates.
  fold configured. subst onDisk legacy. simpl.
  destruct (nonEmpty configured) eqn:Hc; simpl;
    [destruct (existsSync h configured) eqn:Hce; simpl|].
  - repeat split; try done.
  - destruct deployed as [[|c d]|]; simpl;
      [| destruct (existsSync h (c :: d)) eqn:Hd; simpl |];
      destruct (getWorkspaceFolder h (uri document)) as [ws|]; simpl;
      try destruct (existsSync h (path_join h (fsPath ws) (js "tangolint.py")));
      repeat split; try done.
  - destruct deployed as [[|c d]|]; simpl;
      [| destruct (existsSync h (c :: d)) eqn:Hd; simpl |];
      destruct (getWorkspaceFolder h (uri document)) as [ws|]; simpl;
      try destruct (existsSync h (path_join h (fsPath ws) (js "tangolint.py")));
      repeat split; try done.
Qed.

Lemma C5_resolver_precedence_witness :
  findLinterPath configuredHost (Some (js "/store/tangolint.py")) devDocument
  = Some (js "/opt/tangolint.py")
  ∧ findLinterPath deployedHost (Some (js "/store/tangolint.py")) devDocument
    = Some (js "/store/tangolint.py")
  ∧ findLinterPath bareHost (Some (js "/store/tangolint.py")) devDocument = None.
Proof.
  split; [|split].
  - apply (proj1 (proj2 (C5_resolver_precedence configuredHost
                           (Some (js "/store/tangolint.py")) devDocument))).
    vm_compute. reflexivity.
  - apply (proj1 (proj2 (proj2 (C5_resolver_precedence deployedHost
                           (Some (js "/store/tangolint.py")) devDocument))));
      vm_compute; reflexivity.
  - rewrite (proj2 (proj2 (proj2 (C5_resolver_precedence bareHost
                           (Some (js "/store/tangolint.py")) devDocument))));
      vm_compute; reflexivity.
Defined.

(** C5 as first stated fails when neither the configured path nor the
    deployed copy is on disk but the workspace root holds a copy: the
    resolver returns that copy, not unresolved. *)
Lemma C5_counterexample :
  existsSync legacyHost (trim (getString (configuration legacyHost) (js "linterPath") [])) = false
  ∧ existsSync legacyHost (js "/store/tangolint.py") = false
  ∧ findLinterPath legacyHost (Some (js "/store/tangolint.py")) devDocument
    = Some (js "/ws/tangolint.py")
  ∧ findLinterPath legacyHost (Some (js "/store/tangolint.py")) devDocument ≠ None.
Proof. repeat split; try (vm_compute; reflexivity). vm_compute. discriminate. Qed.

(* ====================================================================== *)
(** * The lint runner and its completion callback *)
(* ====================================================================== *)

(** C6: when a document passes the filter and the resolver reports
    unresolved, the run removes the diagnostics stored under the document's
    identity and does nothing else: no subprocess, no message, no console
    output, the status bar, the timers and the other documents' diagnostics
    as before. *)
Theorem C6_unresolved_clears_silently (h : Host) (document : TextDocument)
    (st : State) :
  eligible document = true →
  findLinterPath h (deployedLinterPath st) document = None →
  let st' := lintDocument h document st in
  diagnosticCollection st'
  = delete (uriString (uri document)) (diagnosticCollection st)
  ∧ diagnosticCollection st' !! uriString (uri document) = None
  ∧ launches st' = launches st
  ∧ running st' = running st
  ∧ errorMessages st' = errorMessages st
  ∧ consoleErrors st' = consoleErrors st
  ∧ statusBarItem st' = statusBarItem st
  ∧ debounceTimers st' = debounceTimers st
  ∧ timerQueue st' = timerQueue st.
Proof.
  intros He Hnone st'. subst st'. unfold lintDocument.
  rewrite He, Hnone. simpl. rewrite lookup_delete_eq. repeat split.
Qed.

Lemma C6_unresolved_clears_silently_witness :
  let st := setDiagnostics (insert (uriString (uri devDocument)) [])
              (activate bareHost [] None) in
  diagnosticCollection st !! uriString (uri devDocument) = Some []
  ∧ diagnosticCollection (lintDocument bareHost devDocument st)
      !! uriString (uri devDocument) = None
  ∧ launches (lintDocument bareHost devDocument st) = [].
Proof.
  intros st.
  destruct (C6_unresolved_clears_silently bareHost devDocument st)
    as (_ & Hgone & Hl & _).
  - vm_compute. reflexivity.
  - vm_compute. reflexivity.
  - split; [vm_compute; reflexivity|]. split; [exact Hgone|]. rewrite Hl.
    vm_compute. reflexivity.
Defined.

Lemma nonEmpty_trim s : nonEmpty (trim s) = true → nonEmpty s = true.
Proof. by destruct s. Qed.

Lemma hd_split_firstLine s : hd [] (split LF s) = firstLine s.
Proof.
  induction s as [|c s IH]; simpl; [done|].
  destruct (c =? LF)%N; [done|].
  destruct (split LF s) as [|piece pieces]; simpl in *; by rewrite <- IH.
Qed.

(** C7, as amended: when the error stream holds more than white space, the
    completion callback shows the error status with the first line of the
    trimmed error text and leaves the diagnostic collection, every entry
    of it, as it was, whatever the standard output. *)
Theorem C7_error_stream_keeps_diagnostics (document : TextDocument)
    (stdout stderr : jsstring) (st : State) :
  nonEmpty (trim stderr) = true →
  let st' := onExit document stdout stderr st in
  diagnosticCollection st' = diagnosticCollection st
  ∧ text (statusBarItem st') = js "$(alert) TangoLint"
  ∧ tooltip (statusBarItem st') = js "TangoLint: " ++ firstLine (trim stderr)
  ∧ visible (statusBarItem st') = true
  ∧ consoleErrors st' = consoleErrors st ++ [[js "[tangolint]"; trim stderr]].
Proof.
  intros Ht st'. subst st'. unfold onExit.
  rewrite (nonEmpty_trim _ Ht), Ht. simpl.
  rewrite hd_split_firstLine. repeat split.
Qed.

Lemma C7_error_stream_keeps_diagnostics_witness :
  let st := activate deployedHost [devDocument] None in
  let st' := onExit devDocument (js "dev.py:1:1: error: T010 m")
               (js "Traceback (most recent call last):
ModuleNotFoundError: No module named 'tangolint_rules'
") st in
  diagnosticCollection st' = diagnosticCollection st
  ∧ tooltip (statusBarItem st') = js "TangoLint: Traceback (most recent call last):".
Proof.
  intros st st'.
  destruct (C7_error_stream_keeps_diagnostics devDocument
              (js "dev.py:1:1: error: T010 m")
              (js "Traceback (most recent call last):
ModuleNotFoundError: No module named 'tangolint_rules'
") st) as (Hd & _ & Ht & _).
  - vm_compute. reflexivity.
  - split; [exact Hd|]. subst st'. rewrite Ht. vm_compute. reflexivity.
Defined.

(** C7 as first stated fails for an error stream that holds only white
    space: it is not empty, yet the callback takes the report on standard
    output and replaces the stored diagnostics, and no error status shows.
    And when the error text begins with a line feed, the status carries the
    first line of the trimmed text, not the (empty) first line of the text. *)
Lemma C7_counterexample :
  let st := activate deployedHost [devDocument] None in
  let st' := onExit devDocument (js "dev.py:1:1: error: T010 m") [LF] st in
  let st'' := onExit devDocument [] (LF :: js "boom") st in
  (nonEmpty [LF] = true
   ∧ diagnosticCollection st !! uriString (uri devDocument) = None
   ∧ (∃ d, diagnosticCollection st' !! uriString (uri devDocument) = Some [d])
   ∧ text (statusBarItem st') ≠ js "$(alert) TangoLint")
  ∧ (firstLine (LF :: js "boom") = []
     ∧ tooltip (statusBarItem st'') = js "TangoLint: boom").
Proof.
  intros st st' st''. split.
  - split; [done|]. split; [vm_compute; reflexivity|].
    split; [eexists; vm_compute; reflexivity|]. vm_compute. discriminate.
  - split; vm_compute; reflexivity.
Qed.


(* ====================================================================== *)
(** * The filter and the diagnostic store along a run *)
(* ====================================================================== *)

Lemma lintDocument_cases h doc st :
  (eligible doc = false ∧ lintDocument h doc st = st)
  ∨ (eligible doc = true
     ∧ lintDocument h doc st = setDiagnostics (delete (uriString (uri doc))) st)
  ∨ (eligible doc = true
     ∧ ∃ lp, findLinterPath h (deployedLinterPath st) doc = Some lp
         ∧ nonEmpty lp = true
         ∧ lintDocument h doc st
           = execFile (getPythonPath h)
               ([lp; js "--no-color"] ++ disabledArgs h ++ [fsPath (uri doc)])
               (path_dirname h lp) (1024 * 1024) doc (statusRunning st)).
Proof.
  unfold lintDocument. destruct (eligible doc); simpl; [|by left].
  right. destruct (findLinterPath h (deployedLinterPath st) doc) as [[|c lp]|] eqn:Hf.
  - by left.
  - right. split; [done|]. by exists (c :: lp).
  - by left.
Qed.

Lemma lintDocument_storeOk h doc st : storeOk st → storeOk (lintDocument h doc st).
Proof.
  intros (Hl & Hr & Hd).
  destruct (lintDocument_cases h doc st) as [[_ ->]|[[_ ->]|(He & lp & _ & _ & ->)]].
  - done.
  - split; [done|]. split; [done|]. simpl. intros key [ds Hk].
    apply Hd. exists ds. apply lookup_delete_Some in Hk. tauto.
  - unfold storeOk, execFile. simpl. split; [|split].
    + intros p [Hp|Hp]%elem_of_app; [by apply Hl|].
      apply list_elem_of_singleton in Hp. by subst p.
    + intros p [Hp|Hp]%elem_of_app; apply elem_of_app; [left; by apply Hr|by right].
    + intros key Hk. destruct (Hd key Hk) as (p & Hp & Hkey).
      exists p. split; [|done]. apply elem_of_app. by left.
Qed.

Lemma onExit_storeOk doc out err st :
  (∃ p, p ∈ launches st ∧ uriString (uri (target p)) = uriString (uri doc)) →
  storeOk st → storeOk (onExit doc out err st).
Proof.
  intros Hdoc (Hl & Hr & Hd). unfold onExit.
  destruct (nonEmpty err && nonEmpty (trim err)); [done|].
  destruct (parseOutput out) as [ds|]; [|done].
  split; [done|]. split; [done|]. simpl. intros key [x Hk].
  destruct (decide (uriString (uri doc) = key)) as [<-|Hne]; [done|].
  rewrite lookup_insert_ne in Hk by done. apply Hd. by exists x.
Qed.

Lemma find_running p (l : list Process) q :
  List.find (fun q => Nat.eqb (pid q) p) l = Some q → q ∈ l.
Proof. intros H. apply find_some in H as [H _]. by apply list_elem_of_In. Qed.

Lemma handle_storeOk h ev st : storeOk st → storeOk (handle h ev st).
Proof.
  intros Hok. unfold handle. destruct (subscribed st); simpl; [|done].
  destruct ev as [doc|doc|doc|doc|ed|ed|p out err|]; try done.
  - unfold onDidOpenTextDocument. case_match; [by apply lintDocument_storeOk|done].
  - unfold onDidSaveTextDocument. case_match; [by apply lintDocument_storeOk|done].
  - unfold onDidChangeTextDocument, setTimeout, cancelPending.
    repeat case_match; done.
  - destruct Hok as (Hl & Hr & Hd).
    unfold onDidCloseTextDocument, cancelPending. simpl.
    case_match; (split; [done|split; [done|]]); simpl; intros key [x Hk];
      apply Hd; exists x; apply lookup_delete_Some in Hk; tauto.
  - unfold lintFileCommand. destruct ed; [by apply lintDocument_storeOk|done].
  - destruct (List.find _ (running st)) as [q|] eqn:Hq; [|done].
    apply find_running in Hq. destruct Hok as (Hl & Hr & Hd).
    apply onExit_storeOk.
    + exists q. split; [by apply Hr|done].
    + split; [done|]. split; [|done]. simpl. intros p' Hp'.
      apply list_elem_of_filter in Hp' as [_ Hp']. by apply Hr.
Qed.

Lemma runTimers_storeOk h fuel t : ∀ st, storeOk st → storeOk (runTimers h fuel t st).
Proof.
  induction fuel as [|fuel IH]; intros st Hok; simpl; [done|].
  destruct (timerQueue st) as [|tm rest]; [done|].
  destruct (due tm <=? t); [|done].
  apply IH. unfold debounceCallback. by apply lintDocument_storeOk.
Qed.

Lemma step_storeOk h st e : storeOk st → storeOk (step h st e).
Proof.
  intros Hok. unfold step. apply handle_storeOk. unfold advance.
  by apply (runTimers_storeOk h (length (timerQueue st)) e.1 st) in Hok.
Qed.

Lemma run_storeOk h trace : ∀ st, storeOk st → storeOk (run h st trace).
Proof.
  induction trace as [|e trace IH]; intros st Hok; [done|].
  apply IH. by apply step_storeOk.
Qed.

Lemma foldl_lint_storeOk h docs : ∀ st,
  storeOk st → storeOk (foldl (fun st doc => lintDocument h doc st) st docs).
Proof.
  induction docs as [|d docs IH]; intros st Hok; [done|].
  apply IH. by apply lintDocument_storeOk.
Qed.

Lemma activate_storeOk h docs editor : storeOk (activate h docs editor).
Proof.
  assert (Hempty : ∀ dep sub msgs,
    storeOk {| deployedLinterPath := dep; diagnosticCollection := ∅;
               statusBarItem := statusBarItem initial; debounceTimers := ∅;
               subscribed := sub; clock := 0; timerQueue := []; nextTimer := 0;
               launches := []; running := []; consoleErrors := [];
               errorMessages := msgs |}).
  { intros dep sub msgs. split; [|split]; simpl.
    - intros p Hp. by apply elem_of_nil in Hp.
    - done.
    - intros key [x Hx]. by rewrite lookup_empty in Hx. }
  unfold activate. destruct (deployScripts h) as [msg|dep]; [apply Hempty|].
  assert (Hst : ∀ st, storeOk st →
    storeOk (if from_option isPython false editor
             then setStatusBar (fun item =>
                    {| text := text item; tooltip := tooltip item; visible := true |}) st
             else st)).
  { intros st Hok. by destruct (from_option isPython false editor). }
  apply Hst. destruct (getBoolean (configuration h) (js "lintOnOpen") true);
    [apply foldl_lint_storeOk|]; apply Hempty.
Qed.

(** C9, as amended: a document that is not a file or not Python goes
    through the open, save and manual triggers and through the debounce
    callback without any change of state, and a change event for it starts
    no run and touches no diagnostics, status or message; so in every state
    reached from activation every run was started for an eligible document
    and every stored diagnostic set is keyed by the identity of a document
    that was eligible when a run was started for it. *)
Theorem C9_only_eligible_documents (h : Host) :
  (∀ doc st,
     eligible doc = false →
     handle h (DidOpen doc) st = st
     ∧ handle h (DidSave doc) st = st
     ∧ handle h (LintFile (Some doc)) st = st
     ∧ lintDocument h doc st = st
     ∧ (let st' := handle h (DidChange doc) st in
        launches st' = launches st
        ∧ diagnosticCollection st' = diagnosticCollection st
        ∧ statusBarItem st' = statusBarItem st
        ∧ errorMessages st' = errorMessages st
        ∧ consoleErrors st' = consoleErrors st))
  ∧ (∀ docs editor trace,
       let st := run h (activate h docs editor) trace in
       (∀ p, p ∈ launches st → eligible (target p) = true)
       ∧ (∀ doc, eligible doc = false → ∀ p, p ∈ launches st → target p ≠ doc)
       ∧ ∀ key, is_Some (diagnosticCollection st !! key) →
           ∃ p, p ∈ launches st ∧ eligible (target p) = true
                ∧ uriString (uri (target p)) = key
                ∧ scheme (uri (target p)) = js "file"
                ∧ languageId (target p) = js "python").
Proof.
  split.
  - intros doc st He.
    assert (Hl : ∀ s, lintDocument h doc s = s).
    { intros s. unfold lintDocument. by rewrite He. }
    unfold handle, onDidOpenTextDocument, onDidSaveTextDocument, lintFileCommand.
    rewrite !Hl. repeat split; try by repeat case_match.
    all: unfold onDidChangeTextDocument, setTimeout, cancelPending;
      by repeat case_match.
  - intros docs editor trace st.
    destruct (run_storeOk h trace _ (activate_storeOk h docs editor))
      as (Hl & Hr & Hd).
    split; [done|]. split.
    { intros doc He p Hp Heq. specialize (Hl _ Hp). rewrite Heq in Hl. congruence. }
    intros key Hk. destruct (Hd key Hk) as (p & Hp & Hkey).
    exists p. pose proof (Hl p Hp) as He. repeat split; try done.
    + unfold eligible in He. apply andb_true_iff in He as [He _].
      by apply bool_decide_eq_true in He.
    + unfold eligible in He. apply andb_true_iff in He as [_ He].
      by apply bool_decide_eq_true in He.
Qed.

Lemma C9_only_eligible_documents_witness :
  handle deployedHost (DidOpen notesDocument) (activate deployedHost [] None)
  = activate deployedHost [] None
  ∧ launches (run deployedHost
                (activate deployedHost [untitledDocument; notesDocument] None)
                [(0, DidChange untitledDocument); (10, DidSave notesDocument);
                 (700, LintFile (Some untitledDocument))]) = [].
Proof.
  split.
  - apply (proj1 (C9_only_eligible_documents deployedHost) notesDocument).
    vm_compute. reflexivity.
  - vm_compute. reflexivity.
Defined.

(** C9 as first stated fails: a run is started for the Python file
    [devDocument], its language is changed to plain text while the run is
    in flight, and the completion of the run stores a diagnostic under the
    identity of what is now a document of another language. *)
Lemma C9_counterexample :
  let changed := [(1, DidClose devDocument); (2, DidOpen devAsText)] in
  let completion :=
    (3, ProcessExit 0 (js "/ws/dev.py:1:1: error: T001 x") []) in
  let before := run deployedHost (activate deployedHost [devDocument] None) changed in
  let after := run deployedHost (activate deployedHost [devDocument] None)
                 (changed ++ [completion]) in
  eligible devAsText = false
  ∧ languageId devAsText ≠ js "python"
  ∧ diagnosticCollection before !! uriString (uri devAsText) = None
  ∧ ∃ d, diagnosticCollection after !! uriString (uri devAsText) = Some [d].
Proof.
  split; [vm_compute; reflexivity|]. split; [done|].
  split; [vm_compute; reflexivity|].
  eexists. vm_compute. reflexivity.
Qed.

(* ====================================================================== *)
(** * The timer table and the timer queue *)
(* ====================================================================== *)

Lemma lintDocument_frame h doc st :
  timerQueue (lintDocument h doc st) = timerQueue st
  ∧ debounceTimers (lintDocument h doc st) = debounceTimers st
  ∧ nextTimer (lintDocument h doc st) = nextTimer st
  ∧ clock (lintDocument h doc st) = clock st
  ∧ deployedLinterPath (lintDocument h doc st) = deployedLinterPath st
  ∧ subscribed (lintDocument h doc st) = subscribed st.
Proof.
  destruct (lintDocument_cases h doc st)
    as [[_ ->]|[[_ ->]|(_ & lp & _ & _ & ->)]]; done.
Qed.

Lemma onExit_frame doc out err st :
  timerQueue (onExit doc out err st) = timerQueue st
  ∧ debounceTimers (onExit doc out err st) = debounceTimers st
  ∧ nextTimer (onExit doc out err st) = nextTimer st
  ∧ clock (onExit doc out err st) = clock st
  ∧ deployedLinterPath (onExit doc out err st) = deployedLinterPath st
  ∧ subscribed (onExit doc out err st) = subscribed st
  ∧ launches (onExit doc out err st) = launches st.
Proof. unfold onExit. by repeat case_match. Qed.

Lemma insertTimer_perm tm q : insertTimer tm q ≡ₚ tm :: q.
Proof.
  induction q as [|x q IH]; simpl; [done|].
  destruct (due x <=? due tm); [|done].
  rewrite IH. apply Permutation_swap.
Qed.

Lemma insertTimer_sorted tm q :
  StronglySorted (fun a b => due a ≤ due b) q →
  StronglySorted (fun a b => due a ≤ due b) (insertTimer tm q).
Proof.
  induction 1 as [|x q Hs IH Hx]; simpl.
  - constructor; constructor.
  - destruct (Z.leb_spec (due x) (due tm)).
    + constructor; [done|].
      apply Forall_forall. intros y Hy.
      rewrite insertTimer_perm in Hy. apply elem_of_cons in Hy as [->|Hy]; [done|].
      rewrite Forall_forall in Hx. by apply Hx.
    + constructor; [by constructor|].
      constructor; [lia|]. eapply Forall_impl; [exact Hx|]. simpl. intros; lia.
Qed.

Lemma filter_ext_elem {A} (P Q : A → Prop) `{∀ x, Decision (P x)}
    `{∀ x, Decision (Q x)} (l : list A) :
  (∀ x, x ∈ l → P x ↔ Q x) → filter P l = filter Q l.
Proof.
  induction l as [|a l IH]; intros Hl; [done|].
  rewrite !filter_cons, IH by (intros x Hx; apply Hl; by right).
  pose proof (Hl a (list_elem_of_here _ _)). repeat case_decide; tauto.
Qed.

Lemma filter_none (P : Timer → Prop) `{∀ x, Decision (P x)} q :
  (∀ x, x ∈ q → ¬ P x) → filter P q = [].
Proof.
  induction q as [|y q IH]; intros Hq; [done|].
  rewrite filter_cons_False by (apply Hq; left).
  apply IH. intros z Hz. apply Hq. by right.
Qed.

Lemma filter_insertTimer_other (P : Timer → Prop) `{∀ x, Decision (P x)} tm q :
  ¬ P tm → filter P (insertTimer tm q) = filter P q.
Proof.
  intros Hn. induction q as [|x q IH]; simpl.
  - by rewrite filter_cons_False.
  - destruct (due x <=? due tm).
    + rewrite !filter_cons. by rewrite IH.
    + by rewrite (filter_cons_False _ tm).
Qed.

Lemma filter_insertTimer_only (P : Timer → Prop) `{∀ x, Decision (P x)} tm q :
  P tm → (∀ x, x ∈ q → ¬ P x) → filter P (insertTimer tm q) = [tm].
Proof.
  intros Hp Hq. induction q as [|x q IH]; simpl.
  - by rewrite filter_cons_True.
  - assert (Hx : ¬ P x) by (apply Hq; left).
    destruct (due x <=? due tm).
    + rewrite filter_cons_False by done. apply IH. intros y Hy. apply Hq. by right.
    + rewrite filter_cons_True by done. rewrite filter_cons_False by done.
      rewrite filter_none; [done|]. intros y Hy. apply Hq. by right.
Qed.

Lemma sorted_filter (P : Timer → Prop) `{∀ x, Decision (P x)} q :
  StronglySorted (fun a b => due a ≤ due b) q →
  StronglySorted (fun a b => due a ≤ due b) (filter P q).
Proof.
  induction 1 as [|x q Hs IH Hx]; [constructor|].
  rewrite filter_cons. case_decide; [|done].
  constructor; [done|].
  apply Forall_forall. intros y Hy. apply list_elem_of_filter in Hy as [_ Hy].
  rewrite Forall_forall in Hx. by apply Hx.
Qed.

Lemma timersOkOn_same_key q table next a b :
  timersOkOn q table next → a ∈ q → b ∈ q → tkey a = tkey b → a = b.
Proof.
  intros (_ & Hn & Hr & _) Ha Hb Hk.
  destruct (Hr a Ha) as (Hta & _). destruct (Hr b Hb) as (Htb & _).
  rewrite Hk, Htb in Hta. injection Hta as Hid.
  apply list_elem_of_lookup in Ha as [i Hi]. apply list_elem_of_lookup in Hb as [j Hj].
  assert (i = j).
  { eapply NoDup_lookup; [exact Hn| |]; rewrite list_lookup_fmap.
    - by rewrite Hi.
    - rewrite Hj. simpl. by rewrite Hid. }
  subst j. congruence.
Qed.

(** The head of the queue fires: its callback takes its key off the table. *)
Lemma timersOkOn_fire tm rest table next :
  timersOkOn (tm :: rest) table next →
  timersOkOn rest (delete (tkey tm) table) next
  ∧ ∀ x, x ∈ rest → tkey x ≠ tkey tm.
Proof.
  intros Hok. pose proof Hok as (Hs & Hn & Hr & Ht).
  assert (Hdiff : ∀ x, x ∈ rest → tkey x ≠ tkey tm).
  { intros x Hx Hk.
    assert (x = tm) as -> by (eapply timersOkOn_same_key; [exact Hok|by right|left|done]).
    simpl in Hn. apply NoDup_cons in Hn as [Hn _]. apply Hn.
    apply list_elem_of_fmap. by exists tm. }
  split; [|done]. split; [|split; [|split]].
  - by inversion Hs.
  - simpl in Hn. by apply NoDup_cons in Hn as [_ Hn].
  - intros x Hx. destruct (Hr x) as (H1 & H2 & H3); [by right|].
    rewrite lookup_delete_ne by (intros E; by apply (Hdiff x Hx)). done.
  - intros key id [Hne Hk]%lookup_delete_Some. destruct (Ht key id Hk) as [Hlt Hq].
    split; [done|]. intros x Hx. apply Hq. by right.
Qed.

(** A pending timer is cancelled and its key taken off the table. *)
Lemma timersOkOn_cancel q table next key :
  timersOkOn q table next →
  let q' := match table !! key with
            | Some id => filter (fun tm => tid tm ≠ id) q
            | None => q
            end in
  timersOkOn q' (delete key table) next
  ∧ (∀ x, x ∈ q' → tkey x ≠ key)
  ∧ (∀ x, x ∈ q → tkey x ≠ key → x ∈ q')
  ∧ ∀ k, k ≠ key → filter (fun tm => tkey tm = k) q' = filter (fun tm => tkey tm = k) q.
Proof.
  intros (Hs & Hn & Hr & Ht) q'.
  assert (Hsub : ∀ x, x ∈ q' → x ∈ q).
  { intros x. subst q'. destruct (table !! key); [|done].
    by intros [_ ?]%list_elem_of_filter. }
  assert (Hfree : ∀ x, x ∈ q' → tkey x ≠ key).
  { intros x Hx Hk. destruct (Hr x (Hsub x Hx)) as (Hreg & _). rewrite Hk in Hreg.
    subst q'. rewrite Hreg in Hx. by apply list_elem_of_filter in Hx as [Hne _]. }
  assert (Hkeep : ∀ x, x ∈ q → tkey x ≠ key → x ∈ q').
  { intros x Hx Hk. subst q'. destruct (table !! key) as [id|] eqn:Hid; [|done].
    apply list_elem_of_filter. split; [|done]. intros Hxid.
    destruct (Ht key id Hid) as [_ Hq]. by apply Hk, Hq. }
  split; [|split; [done|split; [done|]]].
  - split; [|split; [|split]].
    + subst q'. destruct (table !! key); [by apply sorted_filter|done].
    + subst q'. destruct (table !! key); [|done].
      eapply sublist_NoDup; [exact Hn|]. apply fmap_sublist, sublist_filter.
    + intros x Hx. destruct (Hr x (Hsub x Hx)) as (H1 & H2 & H3).
      rewrite lookup_delete_ne by (intros E; by apply (Hfree x Hx)). done.
    + intros k id [Hne Hk]%lookup_delete_Some. destruct (Ht k id Hk) as [Hlt Hq].
      split; [done|]. intros x Hx. apply Hq. by apply Hsub.
  - intros k Hk. subst q'. destruct (table !! key) as [id|] eqn:Hid; [|done].
    rewrite list_filter_filter. apply filter_ext_elem. intros x Hxq.
    split; [tauto|]. intros Hx. split; [done|]. intros Hxid.
    destruct (Ht key id Hid) as [_ Hq]. apply Hk. rewrite <- Hx. by apply Hq.
Qed.

(** A fresh timer is queued for [key] and entered in the table. *)
Lemma timersOkOn_insert q table next key doc d :
  timersOkOn q table next →
  (∀ x, x ∈ q → tkey x ≠ key) →
  key = uriString (uri doc) →
  timersOkOn (insertTimer {| tid := next; due := d; tkey := key; tdoc := doc |} q)
             (<[key := next]> table) (S next).
Proof.
  intros (Hs & Hn & Hr & Ht) Hfree Hkey. split; [|split; [|split]].
  - by apply insertTimer_sorted.
  - rewrite insertTimer_perm. simpl. apply NoDup_cons. split; [|done].
    intros Hin. apply list_elem_of_fmap in Hin as (x & Hx & Hxq).
    destruct (Hr x Hxq) as (_ & Hlt & _). lia.
  - intros x Hx. rewrite insertTimer_perm in Hx.
    apply elem_of_cons in Hx as [->|Hx]; simpl.
    + rewrite lookup_insert_eq. repeat split; [lia|done].
    + destruct (Hr x Hx) as (H1 & H2 & H3).
      rewrite lookup_insert_ne by (intros E; by apply (Hfree x Hx)).
      repeat split; [done|lia|done].
  - intros k id Hk. destruct (decide (key = k)) as [<-|Hne].
    + rewrite lookup_insert_eq in Hk. injection Hk as <-. split; [lia|].
      intros x Hx Hid. rewrite insertTimer_perm in Hx.
      apply elem_of_cons in Hx as [->|Hx]; [done|].
      destruct (Hr x Hx) as (_ & Hlt & _). lia.
    + rewrite lookup_insert_ne in Hk by done. destruct (Ht k id Hk) as [Hlt Hq].
      split; [lia|]. intros x Hx Hid. rewrite insertTimer_perm in Hx.
      apply elem_of_cons in Hx as [->|Hx]; [simpl in Hid; lia|]. by apply Hq.
Qed.

Lemma timersOk_frame st st' :
  timerQueue st' = timerQueue st → debounceTimers st' = debounceTimers st →
  nextTimer st' = nextTimer st → timersOk st → timersOk st'.
Proof. unfold timersOk. by intros -> -> ->. Qed.

Lemma cancelPending_queue key st :
  timerQueue (cancelPending key st)
  = match debounceTimers st !! key with
    | Some id => filter (fun tm => tid tm ≠ id) (timerQueue st)
    | None => timerQueue st
    end
  ∧ debounceTimers (cancelPending key st) = debounceTimers st
  ∧ nextTimer (cancelPending key st) = nextTimer st
  ∧ clock (cancelPending key st) = clock st
  ∧ launches (cancelPending key st) = launches st
  ∧ deployedLinterPath (cancelPending key st) = deployedLinterPath st
  ∧ subscribed (cancelPending key st) = subscribed st
  ∧ diagnosticCollection (cancelPending key st) = diagnosticCollection st.
Proof. unfold cancelPending. by destruct (debounceTimers st !! key). Qed.

(** A change event for a Python document, the change trigger being on:
    the document's pending timer is replaced by one due in 600 ms, the
    timers of the other documents stay. *)
Lemma change_arms h doc st :
  timersOk st → subscribed st = true →
  getBoolean (configuration h) (js "lintOnChange") false = true →
  isPython doc = true →
  let key := uriString (uri doc) in
  let st' := handle h (DidChange doc) st in
  timersOk st'
  ∧ pendingFor key st'
    = [{| tid := nextTimer st; due := clock st + 600; tkey := key; tdoc := doc |}]
  ∧ debounceTimers st' !! key = Some (nextTimer st)
  ∧ (∀ k, k ≠ key → pendingFor k st' = pendingFor k st)
  ∧ launches st' = launches st
  ∧ clock st' = clock st
  ∧ deployedLinterPath st' = deployedLinterPath st
  ∧ subscribed st' = true
  ∧ diagnosticCollection st' = diagnosticCollection st.
Proof.
  intros Hok Hsub Hcfg Hpy key st'. subst st'.
  unfold handle, onDidChangeTextDocument, setTimeout. rewrite Hsub, Hcfg, Hpy. simpl.
  fold key.
  destruct (cancelPending_queue key st) as (Hq & Ht & Hn & Hc & Hl & Hd & Hs & Hdg).
  destruct (timersOkOn_cancel _ _ _ key Hok) as (Hok' & Hfree & _ & Hother).
  rewrite <- Hq in Hok', Hfree, Hother.
  unfold timersOk, pendingFor. simpl. rewrite Hn, Hc, Ht, Hl, Hd, Hs, Hdg.
  split; [|split; [|split; [|split]]]; try done.
  - rewrite <- (insert_delete_eq (debounceTimers st)).
    by apply timersOkOn_insert.
  - apply filter_insertTimer_only; [done|]. intros x Hx. by apply Hfree.
  - by rewrite lookup_insert_eq.
  - intros k Hk. rewrite filter_insertTimer_other by (simpl; congruence).
    by apply Hother.
Qed.

(** A close event: the document's pending timer is cancelled and its key
    leaves the table. *)
Lemma close_cancels h doc st :
  timersOk st → subscribed st = true →
  let key := uriString (uri doc) in
  let st' := handle h (DidClose doc) st in
  timersOk st'
  ∧ pendingFor key st' = []
  ∧ debounceTimers st' !! key = None
  ∧ (∀ k, k ≠ key → pendingFor k st' = pendingFor k st)
  ∧ launches st' = launches st
  ∧ clock st' = clock st
  ∧ deployedLinterPath st' = deployedLinterPath st
  ∧ subscribed st' = true.
Proof.
  intros Hok Hsub key st'. subst st'.
  unfold handle, onDidCloseTextDocument. rewrite Hsub. simpl. fold key.
  set (st1 := setDiagnostics (delete key) st).
  assert (Hok1 : timersOk st1) by done.
  destruct (cancelPending_queue key st1) as (Hq & Ht & Hn & Hc & Hl & Hd & Hs & Hdg).
  destruct (timersOkOn_cancel _ _ _ key Hok1) as (Hok' & Hfree & _ & Hother).
  rewrite <- Hq in Hok', Hfree, Hother.
  unfold timersOk, pendingFor. simpl. rewrite Hn, Hc, Ht, Hl, Hd, Hs.
  split; [|split; [|split; [|split]]]; try done.
  - apply filter_none. intros x Hx. by apply Hfree.
  - by rewrite lookup_delete_eq.
Qed.

Lemma handle_timersOk h ev st : timersOk st → timersOk (handle h ev st).
Proof.
  intros Hok. destruct (subscribed st) eqn:Hsub; [|unfold handle; by rewrite Hsub].
  destruct ev as [doc|doc|doc|doc|ed|ed|p out err|].
  - unfold handle, onDidOpenTextDocument. rewrite Hsub. simpl. case_match; [|done].
    destruct (lintDocument_frame h doc st) as (? & ? & ? & _).
    by eapply timersOk_frame.
  - unfold handle, onDidSaveTextDocument. rewrite Hsub. simpl. case_match; [|done].
    destruct (lintDocument_frame h doc st) as (? & ? & ? & _).
    by eapply timersOk_frame.
  - destruct (getBoolean (configuration h) (js "lintOnChange") false) eqn:Hcfg;
      [destruct (isPython doc) eqn:Hpy|].
    + by apply change_arms.
    + unfold handle, onDidChangeTextDocument. by rewrite Hsub, Hcfg, Hpy.
    + unfold handle, onDidChangeTextDocument. by rewrite Hsub, Hcfg.
  - by apply close_cancels.
  - unfold handle. by rewrite Hsub.
  - unfold handle, lintFileCommand. rewrite Hsub. simpl. destruct ed; [|done].
    destruct (lintDocument_frame h t st) as (? & ? & ? & _).
    by eapply timersOk_frame.
  - unfold handle. rewrite Hsub. simpl. case_match; [|done].
    match goal with |- timersOk (onExit ?d ?o ?e ?s) =>
      destruct (onExit_frame d o e s) as (? & ? & ? & _) end.
    by eapply timersOk_frame.
  - unfold handle. by rewrite Hsub.
Qed.

Lemma fireHead_ok h tm rest st :
  timersOk st → timerQueue st = tm :: rest →
  timersOk (fireHead h tm rest st)
  ∧ timerQueue (fireHead h tm rest st) = rest
  ∧ clock (fireHead h tm rest st) = Z.max (clock st) (due tm)
  ∧ deployedLinterPath (fireHead h tm rest st) = deployedLinterPath st
  ∧ subscribed (fireHead h tm rest st) = subscribed st.
Proof.
  intros Hok Hq. unfold fireHead, debounceCallback.
  match goal with |- context [lintDocument h ?d ?s] =>
    destruct (lintDocument_frame h d s) as (H1 & H2 & H3 & H4 & H5 & H6) end.
  rewrite H1, H4, H5, H6. simpl. split; [|done].
  unfold timersOk. rewrite H1, H2, H3. simpl.
  unfold timersOk in Hok. rewrite Hq in Hok. by apply timersOkOn_fire in Hok as [? _].
Qed.

Lemma runTimers_step h fuel t st tm rest :
  timerQueue st = tm :: rest →
  runTimers h (S fuel) t st
  = if due tm <=? t then runTimers h fuel t (fireHead h tm rest st) else st.
Proof. intros Hq. cbn [runTimers]. by rewrite Hq. Qed.

Lemma runTimers_ok h fuel t : ∀ st,
  timersOk st →
  let st' := runTimers h fuel t st in
  timersOk st'
  ∧ deployedLinterPath st' = deployedLinterPath st
  ∧ subscribed st' = subscribed st
  ∧ clock st ≤ clock st' ≤ Z.max (clock st) t.
Proof.
  induction fuel as [|fuel IH]; intros st Hok;
    [cbn [runTimers]; do 3 (split; [done|]); lia|].
  destruct (timerQueue st) as [|tm rest] eqn:Hq.
  { cbn [runTimers]. rewrite Hq. do 3 (split; [done|]). lia. }
  cbv zeta. rewrite (runTimers_step _ _ _ _ _ _ Hq).
  destruct (Z.leb_spec (due tm) t); [|do 3 (split; [done|]); lia].
  destruct (fireHead_ok h tm rest st Hok Hq) as (Hok1 & _ & Hc1 & Hd1 & Hs1).
  destruct (IH _ Hok1) as (Hok' & Hd' & Hs' & Hc').
  rewrite Hd', Hs', Hd1, Hs1. do 3 (split; [done|]). lia.
Qed.

Lemma advance_ok h t st :
  timersOk st →
  timersOk (advance h t st)
  ∧ deployedLinterPath (advance h t st) = deployedLinterPath st
  ∧ subscribed (advance h t st) = subscribed st
  ∧ clock (advance h t st) = Z.max (clock st) t.
Proof.
  intros Hok. unfold advance.
  destruct (runTimers_ok h (length (timerQueue st)) t st Hok) as (Hok' & Hd & Hs & Hc).
  simpl. do 3 (split; [done|]). lia.
Qed.

Lemma handle_frame h ev st :
  deployedLinterPath (handle h ev st) = deployedLinterPath st
  ∧ subscribed (handle h ev st) = subscribed st
  ∧ clock (handle h ev st) = clock st.
Proof.
  unfold handle. destruct (subscribed st) eqn:Hsub; [|done]. simpl.
  destruct ev as [doc|doc|doc|doc|ed|ed|p out err|]; try done.
  - unfold onDidOpenTextDocument. case_match; [|done].
    destruct (lintDocument_frame h doc st) as (_ & _ & _ & ? & ? & ?). simpl in *; repeat split; congruence.
  - unfold onDidSaveTextDocument. case_match; [|done].
    destruct (lintDocument_frame h doc st) as (_ & _ & _ & ? & ? & ?). simpl in *; repeat split; congruence.
  - unfold onDidChangeTextDocument, setTimeout, cancelPending. by repeat case_match.
  - unfold onDidCloseTextDocument, cancelPending. by repeat case_match.
  - unfold lintFileCommand. destruct ed; [|done].
    destruct (lintDocument_frame h t st) as (_ & _ & _ & ? & ? & ?). simpl in *; repeat split; congruence.
  - case_match; [|done].
    match goal with |- context [onExit ?d ?o ?e ?s] =>
      destruct (onExit_frame d o e s) as (_ & _ & _ & ? & ? & ? & _) end.
    simpl in *; repeat split; congruence.
Qed.

Lemma step_ok h st e :
  timersOk st →
  timersOk (step h st e)
  ∧ deployedLinterPath (step h st e) = deployedLinterPath st
  ∧ subscribed (step h st e) = subscribed st
  ∧ clock (step h st e) = Z.max (clock st) e.1.
Proof.
  intros Hok. unfold step.
  destruct (advance_ok h e.1 st Hok) as (Hok' & Hd & Hs & Hc).
  destruct (handle_frame h e.2 (advance h e.1 st)) as (Hd' & Hs' & Hc').
  split; [by apply handle_timersOk|]. by rewrite Hd', Hs', Hc', Hd, Hs, Hc.
Qed.

Lemma run_ok h trace : ∀ st,
  timersOk st →
  timersOk (run h st trace)
  ∧ deployedLinterPath (run h st trace) = deployedLinterPath st
  ∧ subscribed (run h st trace) = subscribed st.
Proof.
  induction trace as [|e trace IH]; intros st Hok; [done|].
  destruct (step_ok h st e Hok) as (Hok' & Hd & Hs & _).
  destruct (IH _ Hok') as (Hok'' & Hd' & Hs').
  unfold run in *. simpl. by rewrite Hd', Hs', Hd, Hs.
Qed.

Lemma run_app h st a b : run h st (a ++ b) = run h (run h st a) b.
Proof. unfold run. apply foldl_app. Qed.

Lemma foldl_lint_frame h docs : ∀ st,
  let st' := foldl (fun st doc => lintDocument h doc st) st docs in
  timerQueue st' = timerQueue st ∧ debounceTimers st' = debounceTimers st
  ∧ nextTimer st' = nextTimer st ∧ deployedLinterPath st' = deployedLinterPath st
  ∧ subscribed st' = subscribed st.
Proof.
  induction docs as [|d docs IH]; intros st; [done|]. simpl.
  destruct (IH (lintDocument h d st)) as (H1 & H2 & H3 & H4 & H5).
  destruct (lintDocument_frame h d st) as (G1 & G2 & G3 & _ & G5 & G6).
  by rewrite H1, H2, H3, H4, H5, G1, G2, G3, G5, G6.
Qed.

Lemma activate_ok h docs editor :
  timersOk (activate h docs editor)
  ∧ (deployFailure h = None →
     subscribed (activate h docs editor) = true
     ∧ deployedLinterPath (activate h docs editor)
       = Some (path_join h (globalStoragePath h) (js "tangolint.py"))).
Proof.
  assert (Hempty : ∀ next, timersOkOn [] ∅ next).
  { intros next. split; [constructor|]. split; [constructor|]. split.
    - intros tm Htm. by apply elem_of_nil in Htm.
    - intros key id Hk. by rewrite lookup_empty in Hk. }
  unfold activate, deployScripts. destruct (deployFailure h) as [msg|].
  { split; [apply Hempty|done]. }
  set (st0 := {| deployedLinterPath := Some _; subscribed := true |}).
  set (st1 := if getBoolean (configuration h) (js "lintOnOpen") true
              then foldl (fun st doc => lintDocument h doc st) st0 docs else st0).
  assert (H1 : timerQueue st1 = [] ∧ debounceTimers st1 = ∅ ∧ nextTimer st1 = 0%nat
               ∧ deployedLinterPath st1 = deployedLinterPath st0
               ∧ subscribed st1 = true).
  { subst st1. destruct (getBoolean _ _ _); [|done].
    destruct (foldl_lint_frame h docs st0) as (? & ? & ? & ? & ?). done. }
  destruct H1 as (Hq & Ht & Hn & Hd & Hs).
  destruct (from_option isPython false editor); unfold timersOk; simpl;
    rewrite Hq, Ht, Hn, Hd, Hs; (split; [apply Hempty|done]).
Qed.

(* ====================================================================== *)
(** * Runs started by the debounce timer *)
(* ====================================================================== *)

Lemma lintDocument_launchesFor_other h doc st key :
  uriString (uri doc) ≠ key →
  launchesFor key (lintDocument h doc st) = launchesFor key st.
Proof.
  intros Hne. unfold launchesFor.
  destruct (lintDocument_cases h doc st)
    as [[_ ->]|[[_ ->]|(_ & lp & _ & _ & ->)]]; try done.
  unfold execFile. simpl. rewrite filter_app.
  rewrite (filter_cons_False _ _ []) by done. by rewrite filter_nil, app_nil_r.
Qed.

Lemma lintDocument_launchesFor_own h doc st lp :
  eligible doc = true →
  findLinterPath h (deployedLinterPath st) doc = Some lp → nonEmpty lp = true →
  ∃ p, launchesFor (uriString (uri doc)) (lintDocument h doc st)
       = launchesFor (uriString (uri doc)) st ++ [p]
       ∧ started p = clock st ∧ target p = doc.
Proof.
  intros He Hf Hlp. unfold launchesFor, lintDocument. rewrite He, Hf. simpl.
  destruct lp as [|c lp]; [done|]. unfold execFile. simpl.
  eexists. rewrite filter_app, (filter_cons_True _ _ []) by done.
  rewrite filter_nil. split; [reflexivity|done].
Qed.

Lemma last_cons_default (rest : list Z) : ∀ t t',
  List.last (t' :: rest) t = List.last rest t'.
Proof.
  induction rest as [|a rest IH]; intros t t'; [done|].
  change (List.last (t' :: a :: rest) t) with (List.last (a :: rest) t).
  by rewrite (IH t a), (IH t' a).
Qed.

Lemma filter_all {A} (P : A → Prop) `{∀ x, Decision (P x)} (l : list A) :
  (∀ x, x ∈ l → P x) → filter P l = l.
Proof.
  induction l as [|a l IH]; intros Hl; [done|].
  rewrite filter_cons_True by (apply Hl; left).
  f_equal. apply IH. intros x Hx. apply Hl. by right.
Qed.

Section Debounce.

Variable h : Host.
Variable doc : TextDocument.
Variable dep : option jsstring.
Variable lp : jsstring.
Hypothesis Heligible : eligible doc = true.
Hypothesis Hresolved : findLinterPath h dep doc = Some lp.
Hypothesis Hpath : nonEmpty lp = true.

Local Abbreviation key := (uriString (uri doc)).

Lemma fireHead_launches tm rest st :
  timersOk st → deployedLinterPath st = dep → timerQueue st = tm :: rest →
  ownTimersOk key doc st →
  ∃ fired,
    launchesFor key (fireHead h tm rest st) = launchesFor key st ++ fired
    ∧ map started fired = map due (filter (fun x => tkey x = key) [tm])
    ∧ Forall (fun p => target p = doc) fired.
Proof.
  intros Hok Hdep Hq Hown.
  assert (Htm : tm ∈ timerQueue st) by (rewrite Hq; left).
  destruct Hok as (_ & _ & Hr & _). destruct (Hr tm Htm) as (_ & _ & Hk).
  unfold fireHead, debounceCallback.
  destruct (decide (tkey tm = key)) as [Heq|Hne].
  - destruct (Hown tm Htm Heq) as [Hdoc Hclock].
    rewrite Hdoc.
    match goal with |- context [lintDocument h doc ?s] =>
      destruct (lintDocument_launchesFor_own h doc s lp Heligible)
        as (p & Hp & Hs & Ht) end.
    { simpl. rewrite Hdep. exact Hresolved. }
    { exact Hpath. }
    exists [p]. rewrite Hp.
    rewrite (filter_cons_True _ _ []) by done. rewrite filter_nil. simpl.
    split; [done|]. split; [|by constructor].
    rewrite Hs. simpl. f_equal. lia.
  - exists []. rewrite lintDocument_launchesFor_other by congruence.
    rewrite (filter_cons_False _ _ []) by done. by rewrite app_nil_r.
Qed.

Lemma sorted_head_le tm rest x :
  StronglySorted (fun a b => due a ≤ due b) (tm :: rest) → x ∈ tm :: rest →
  due tm ≤ due x.
Proof.
  intros Hs [->|Hx]%elem_of_cons; [lia|].
  inversion Hs as [|? ? _ Hall]; subst. rewrite Forall_forall in Hall. by apply Hall.
Qed.

Lemma runTimers_key fuel t : ∀ st,
  timersOk st → deployedLinterPath st = dep →
  (length (timerQueue st) ≤ fuel)%nat → ownTimersOk key doc st →
  let st' := runTimers h fuel t st in
  pendingFor key st' = filter (fun tm => t < due tm) (pendingFor key st)
  ∧ ∃ fired,
      launchesFor key st' = launchesFor key st ++ fired
      ∧ map started fired
        = map due (filter (fun tm => due tm ≤ t) (pendingFor key st))
      ∧ Forall (fun p => target p = doc) fired.
Proof.
  induction fuel as [|fuel IH]; intros st Hok Hdep Hlen Hown.
  { destruct (timerQueue st) eqn:Hq; [|simpl in Hlen; lia].
    cbn [runTimers]. unfold pendingFor. rewrite Hq, !filter_nil.
    split; [done|]. exists []. by rewrite app_nil_r. }
  destruct (timerQueue st) as [|tm rest] eqn:Hq.
  { cbn [runTimers]. rewrite Hq. cbv zeta. unfold pendingFor. rewrite Hq, !filter_nil.
    split; [done|]. exists []. by rewrite app_nil_r. }
  cbv zeta. rewrite (runTimers_step _ _ _ _ _ _ Hq).
  pose proof Hok as (Hs & _). rewrite Hq in Hs.
  destruct (Z.leb_spec (due tm) t) as [Hdue|Hdue].
  - destruct (fireHead_ok h tm rest st Hok Hq) as (Hok1 & Hq1 & Hc1 & Hd1 & _).
    destruct (fireHead_launches tm rest st Hok Hdep Hq Hown) as (f1 & Hl1 & Hm1 & Hf1).
    assert (Hown1 : ownTimersOk key doc (fireHead h tm rest st)).
    { intros x Hx Hk. rewrite Hq1 in Hx.
      destruct (Hown x) as [Hd Hc]; [rewrite Hq; by right|done|].
      split; [done|]. rewrite Hc1.
      pose proof (sorted_head_le tm rest x Hs). 
      assert (due tm ≤ due x) by (apply H; by right). lia. }
    destruct (IH (fireHead h tm rest st) Hok1) as (Hp' & f2 & Hl2 & Hm2 & Hf2);
      [congruence|rewrite Hq1; simpl in Hlen; lia|done|].
    unfold pendingFor in *. rewrite Hq1 in Hp', Hm2. rewrite Hq.
    rewrite filter_cons. split.
    + rewrite Hp'. case_decide; [|done].
      rewrite filter_cons_False by lia. done.
    + exists (f1 ++ f2). rewrite Hl2, Hl1, <- app_assoc. split; [done|].
      split; [|by apply Forall_app].
      rewrite map_app, Hm1, Hm2.
      rewrite filter_cons. case_decide.
      * rewrite filter_cons_True by lia. done.
      * done.
  - assert (Hlater : ∀ x, x ∈ pendingFor key st → t < due x).
    { intros x [_ Hx]%list_elem_of_filter. rewrite Hq in Hx.
      pose proof (sorted_head_le tm rest x Hs Hx). lia. }
    split.
    + symmetry. by apply filter_all.
    + exists []. rewrite app_nil_r. split; [done|]. split; [|done].
      rewrite filter_none; [done|]. intros x Hx. specialize (Hlater x Hx). lia.
Qed.

Hypothesis Hchange : getBoolean (configuration h) (js "lintOnChange") false = true.

Lemma eligible_python : isPython doc = true.
Proof. unfold eligible in Heligible. by apply andb_true_iff in Heligible as [_ ?]. Qed.

Lemma advance_key t st :
  timersOk st → deployedLinterPath st = dep → ownTimersOk key doc st →
  pendingFor key (advance h t st) = filter (fun tm => t < due tm) (pendingFor key st)
  ∧ ∃ fired,
      launchesFor key (advance h t st) = launchesFor key st ++ fired
      ∧ map started fired
        = map due (filter (fun tm => due tm ≤ t) (pendingFor key st))
      ∧ Forall (fun p => target p = doc) fired.
Proof.
  intros Hok Hdep Hown.
  by destruct (runTimers_key (length (timerQueue st)) t st Hok Hdep (le_n _) Hown).
Qed.

Lemma armed_own t st : armed dep doc t st → ownTimersOk key doc st.
Proof.
  intros (_ & _ & _ & Hc & id & Hp) tm Htm Hk.
  assert (Hin : tm ∈ pendingFor key st) by (by apply list_elem_of_filter).
  rewrite Hp in Hin. apply list_elem_of_singleton in Hin. subst tm. simpl. split; [done|lia].
Qed.

(** A change event in a state whose own timers are in order. *)
Lemma step_change t st :
  timersOk st → subscribed st = true → deployedLinterPath st = dep →
  ownTimersOk key doc st →
  armed dep doc (Z.max (clock st) t) (step h st (t, DidChange doc))
  ∧ ∃ fired,
      launchesFor key (step h st (t, DidChange doc)) = launchesFor key st ++ fired
      ∧ map started fired
        = map due (filter (fun tm => due tm ≤ t) (pendingFor key st))
      ∧ Forall (fun p => target p = doc) fired.
Proof.
  intros Hok Hsub Hdep Hown. unfold step. simpl.
  destruct (advance_ok h t st Hok) as (Hok1 & Hd1 & Hs1 & Hc1).
  destruct (advance_key t st Hok Hdep Hown) as (_ & fired & Hl & Hm & Hf).
  destruct (change_arms h doc (advance h t st) Hok1) as
    (Hok2 & Hp2 & _ & _ & Hl2 & Hc2 & Hd2 & Hs2 & _);
    [congruence|done|apply eligible_python|].
  split.
  - split; [done|]. split; [done|]. split; [congruence|]. split; [congruence|].
    eexists. rewrite Hp2. by rewrite Hc1.
  - exists fired. unfold launchesFor in *. by rewrite Hl2.
Qed.

(** The first change event of a burst, whatever was pending before. *)
Lemma step_change_first t st :
  timersOk st → subscribed st = true → deployedLinterPath st = dep →
  armed dep doc (Z.max (clock st) t) (step h st (t, DidChange doc))
  ∧ launchesFor key (step h st (t, DidChange doc)) = launchesFor key (advance h t st).
Proof.
  intros Hok Hsub Hdep. unfold step. simpl.
  destruct (advance_ok h t st Hok) as (Hok1 & Hd1 & Hs1 & Hc1).
  destruct (change_arms h doc (advance h t st) Hok1) as
    (Hok2 & Hp2 & _ & _ & Hl2 & Hc2 & Hd2 & Hs2 & _);
    [congruence|done|apply eligible_python|].
  split.
  - split; [done|]. split; [done|]. split; [congruence|]. split; [congruence|].
    eexists. rewrite Hp2. by rewrite Hc1.
  - unfold launchesFor. by rewrite Hl2.
Qed.

Lemma burst_armed times : ∀ st t,
  armed dep doc t st → nondecreasing t times →
  armed dep doc (List.last times t) (run h st (burst doc times))
  ∧ ∃ fired,
      launchesFor key (run h st (burst doc times)) = launchesFor key st ++ fired
      ∧ map started fired ++ [List.last times t + 600] = firingsFrom t times
      ∧ Forall (fun p => target p = doc) fired.
Proof.
  induction times as [|t' rest IH]; intros st t Harm Hnd.
  { split; [done|]. exists []. by rewrite app_nil_r. }
  destruct Hnd as [Hle Hnd].
  pose proof (armed_own _ _ Harm) as Hown.
  destruct Harm as (Hok & Hsub & Hdep & Hc & id & Hp).
  destruct (step_change t' st Hok Hsub Hdep Hown) as (Harm1 & f1 & Hl1 & Hm1 & Hf1).
  rewrite Hc, Z.max_r in Harm1 by done.
  destruct (IH _ _ Harm1 Hnd) as (Harm2 & f2 & Hl2 & Hm2 & Hf2).
  change (run h st (burst doc (t' :: rest)))
    with (run h (step h st (t', DidChange doc)) (burst doc rest)).
  rewrite last_cons_default. split; [done|].
  exists (f1 ++ f2). rewrite Hl2, Hl1, <- app_assoc. split; [done|].
  split; [|by apply Forall_app].
  rewrite map_app, <- app_assoc, Hm2, Hm1, Hp. cbn [firingsFrom]. f_equal.
  rewrite filter_cons. simpl.
  destruct (Z.leb_spec (t + 600) t'); case_decide; try lia; done.
Qed.

(** Time passes beyond the window of the last change event. *)
Lemma tick_fires t T st :
  armed dep doc t st → t + 600 ≤ T →
  ∃ p, launchesFor key (step h st (T, Tick)) = launchesFor key st ++ [p]
       ∧ started p = t + 600 ∧ target p = doc.
Proof.
  intros Harm HT. pose proof (armed_own _ _ Harm) as Hown.
  destruct Harm as (Hok & Hsub & Hdep & Hc & id & Hp).
  destruct (advance_key T st Hok Hdep Hown) as (_ & fired & Hl & Hm & Hf).
  rewrite Hp, filter_cons_True in Hm by (simpl; lia). rewrite filter_nil in Hm.
  destruct fired as [|p [|q fired]]; try done.
  exists p. unfold step. cbn [fst snd]. unfold handle.
  destruct (advance_ok h T st Hok) as (_ & _ & Hs1 & _). rewrite Hs1, Hsub.
  cbn [negb].
  split; [done|]. simpl in Hm. injection Hm as Hm.
  split; [done|]. by inversion Hf.
Qed.

Lemma firingsFrom_close t times :
  closerThan 600 t times → firingsFrom t times = [List.last times t + 600].
Proof.
  revert t. induction times as [|t' rest IH]; intros t Hc; [done|].
  destruct Hc as (Hle & Hlt & Hc). cbn [firingsFrom].
  destruct (Z.leb_spec (t + 600) t'); [lia|]. rewrite (IH _ Hc).
  by rewrite last_cons_default.
Qed.

Lemma firingsFrom_far t times :
  furtherThan 600 t times →
  firingsFrom t times = map (fun x => x + 600) (t :: times).
Proof.
  revert t. induction times as [|t' rest IH]; intros t Hf; [done|].
  destruct Hf as (Hlt & Hf). cbn [firingsFrom].
  destruct (Z.leb_spec (t + 600) t'); [|lia]. by rewrite (IH _ Hf).
Qed.

Lemma closerThan_nondecreasing w t times :
  closerThan w t times → nondecreasing t times.
Proof.
  revert t. induction times as [|t' rest IH]; intros t Hc; [done|].
  destruct Hc as (? & ? & ?). split; [done|by apply IH].
Qed.

Lemma furtherThan_nondecreasing t times :
  furtherThan 600 t times → nondecreasing t times.
Proof.
  revert t. induction times as [|t' rest IH]; intros t Hc; [done|].
  destruct Hc as (? & ?). split; [lia|by apply IH].
Qed.

(** A burst of change events from any state in order, then time passing
    beyond the last window: the runs started for the document are those
    there when the burst began and one per firing. *)
Lemma burst_launches st t1 rest T :
  timersOk st → subscribed st = true → deployedLinterPath st = dep →
  clock st ≤ t1 → nondecreasing t1 rest → List.last rest t1 + 600 ≤ T →
  ∃ fired,
    launchesFor key (run h st (burst doc (t1 :: rest) ++ [(T, Tick)]))
    = launchesFor key (advance h t1 st) ++ fired
    ∧ map started fired = firingsFrom t1 rest
    ∧ Forall (fun p => target p = doc) fired.
Proof.
  intros Hok Hsub Hdep Hclock Hnd HT.
  destruct (step_change_first t1 st Hok Hsub Hdep) as (Harm1 & Hl1).
  rewrite Z.max_r in Harm1 by done.
  destruct (burst_armed rest _ _ Harm1 Hnd) as (Harm2 & f2 & Hl2 & Hm2 & Hf2).
  destruct (tick_fires _ T _ Harm2 HT) as (p & Hl3 & Hs3 & Ht3).
  unfold run. simpl. rewrite foldl_app. simpl. fold (run h (step h st (t1, DidChange doc)) (burst doc rest)).
  exists (f2 ++ [p]). rewrite Hl3, Hl2, Hl1, <- app_assoc. split; [done|].
  split.
  - rewrite map_app. simpl. by rewrite Hs3.
  - apply Forall_app. split; [done|]. by constructor.
Qed.

End Debounce.

(** C8: with the change trigger on, for a Python file whose analyzer is
    found: (a) a change event leaves exactly one pending timer for the
    document, due 600 ms after the event, registered in the table, and the
    timers of other documents are as they were; (b) change events less than
    600 ms apart start exactly one run, 600 ms after the last of them;
    (c) change events more than 600 ms apart start one run each, 600 ms
    after each; (d) closing the document leaves no timer for it, and no
    run is started for it however much time passes. *)
Theorem C8_debounce (h : Host) (docs : list TextDocument)
    (editor : option TextDocument) (history : list (Z * event))
    (doc : TextDocument) (lp : jsstring) :
  let st0 := run h (activate h docs editor) history in
  let key := uriString (uri doc) in
  subscribed st0 = true →
  getBoolean (configuration h) (js "lintOnChange") false = true →
  eligible doc = true →
  findLinterPath h (deployedLinterPath st0) doc = Some lp →
  nonEmpty lp = true →
  (∀ t,
     let before := advance h t st0 in
     let st1 := step h st0 (t, DidChange doc) in
     (∃ id, pendingFor key st1
            = [{| tid := id; due := clock before + 600; tkey := key; tdoc := doc |}]
            ∧ debounceTimers st1 !! key = Some id)
     ∧ (∀ k, k ≠ key → pendingFor k st1 = pendingFor k before)
     ∧ launches st1 = launches before)
  ∧ (∀ t1 rest T,
       clock st0 ≤ t1 → closerThan 600 t1 rest → List.last rest t1 + 600 ≤ T →
       ∃ p, launchesFor key (run h st0 (burst doc (t1 :: rest) ++ [(T, Tick)]))
            = launchesFor key (advance h t1 st0) ++ [p]
            ∧ started p = List.last rest t1 + 600 ∧ target p = doc)
  ∧ (∀ t1 rest T,
       clock st0 ≤ t1 → furtherThan 600 t1 rest → List.last rest t1 + 600 ≤ T →
       ∃ ps, launchesFor key (run h st0 (burst doc (t1 :: rest) ++ [(T, Tick)]))
             = launchesFor key (advance h t1 st0) ++ ps
             ∧ length ps = length (t1 :: rest)
             ∧ map started ps = map (fun t => t + 600) (t1 :: rest)
             ∧ Forall (fun p => target p = doc) ps)
  ∧ (∀ t,
       let st1 := step h st0 (t, DidClose doc) in
       pendingFor key st1 = []
       ∧ debounceTimers st1 !! key = None
       ∧ ∀ T, launchesFor key (step h st1 (T, Tick)) = launchesFor key st1).
Proof.
  intros st0 key Hsub Hchange Helig Hres Hlp.
  destruct (run_ok h history _ (proj1 (activate_ok h docs editor))) as (Hok & _ & _).
  fold st0 in Hok. subst key.
  split; [|split; [|split]].
  - intros t before st1. subst st1 before. unfold step. cbn [fst snd].
    destruct (advance_ok h t st0 Hok) as (Hok1 & _ & Hs1 & _).
    destruct (change_arms h doc (advance h t st0) Hok1) as
      (_ & Hp & Ht & Hother & Hl & _);
      [congruence|done|by apply (eligible_python doc)|].
    split; [eauto|]. split; [done|done].
  - intros t1 rest T Hclock Hclose HT.
    destruct (burst_launches h doc _ lp Helig Hres Hlp Hchange st0 t1 rest T)
      as (fired & Hl & Hm & Hf); try done.
    { by eapply closerThan_nondecreasing. }
    rewrite firingsFrom_close in Hm by done.
    destruct fired as [|p [|q fired]]; try done.
    exists p. split; [done|]. simpl in Hm. injection Hm as Hm.
    split; [done|]. by inversion Hf.
  - intros t1 rest T Hclock Hfar HT.
    destruct (burst_launches h doc _ lp Helig Hres Hlp Hchange st0 t1 rest T)
      as (fired & Hl & Hm & Hf); try done.
    { by eapply furtherThan_nondecreasing. }
    rewrite firingsFrom_far in Hm by done.
    exists fired. split; [done|]. split; [|done].
    rewrite <- (length_map started fired), Hm. by rewrite length_map.
  - intros t st1. subst st1. unfold step at 1 2 3. cbn [fst snd].
    destruct (advance_ok h t st0 Hok) as (Hok1 & Hd1 & Hs1 & _).
    destruct (close_cancels h doc (advance h t st0) Hok1) as
      (Hok2 & Hp & Ht & _ & _ & _ & Hd2 & Hs2); [congruence|].
    split; [done|]. split; [done|].
    intros T. unfold step. cbn [fst snd].
    set (st1 := handle h (DidClose doc) (advance h t st0)) in *.
    destruct (advance_ok h T st1 Hok2) as (_ & _ & Hs3 & _).
    unfold handle at 1. rewrite Hs3, Hs2. cbn [negb].
    destruct (advance_key h doc _ lp Helig Hres Hlp T st1 Hok2) as (_ & fired & Hl & Hm & _).
    + congruence.
    + intros tm Htm Hk.
      assert (Hin : tm ∈ pendingFor (uriString (uri doc)) st1)
        by (by apply list_elem_of_filter).
      rewrite Hp in Hin. by apply elem_of_nil in Hin.
    + rewrite Hp, filter_nil in Hm. destruct fired; [|done].
      by rewrite app_nil_r in Hl.
Qed.

Lemma C8_debounce_witness :
  (∃ p, launchesFor (uriString (uri devDocument))
          (run deployedHost (activate deployedHost [] None)
             (burst devDocument [0; 100; 699] ++ [(1299, Tick)]))
        = [p] ∧ started p = 1299)
  ∧ (∃ ps, launchesFor (uriString (uri devDocument))
             (run deployedHost (activate deployedHost [] None)
                (burst devDocument [0; 700; 1500] ++ [(2100, Tick)]))
           = ps ∧ map started ps = [600; 1300; 2100])
  ∧ (∃ p, launchesFor (uriString (uri devDocument))
            (run deployedHost (activate deployedHost [] None)
               ([(0, DidChange otherDocument)]
                ++ burst devDocument [300] ++ [(2000, Tick)]))
          = [p] ∧ started p = 900)
  ∧ launches (run deployedHost (activate deployedHost [] None)
                [(0, DidChange devDocument); (100, DidClose devDocument);
                 (5000, Tick)]) = [].
Proof.
  pose proof (C8_debounce deployedHost [] None [] devDocument
                (js "/store/tangolint.py")) as H.
  pose proof (C8_debounce deployedHost [] None [(0, DidChange otherDocument)]
                devDocument (js "/store/tangolint.py")) as H'.
  cbv zeta in H, H'.
  specialize (H eq_refl eq_refl eq_refl eq_refl eq_refl).
  specialize (H' eq_refl eq_refl eq_refl eq_refl eq_refl).
  destruct H as (_ & Hb & Hc & _). destruct H' as (_ & Hb' & _).
  split; [|split; [|split]].
  - change (activate deployedHost [] None)
      with (run deployedHost (activate deployedHost [] None) []).
    destruct (Hb 0 [100; 699] 1299) as (p & Hl & Hs & _).
    + vm_compute. discriminate.
    + simpl. lia.
    + simpl. lia.
    + exists p. split; [|exact Hs]. rewrite Hl.
      match goal with |- ?a ++ _ = _ =>
        assert (E : a = []) by (vm_compute; reflexivity); rewrite E end.
      reflexivity.
  - change (activate deployedHost [] None)
      with (run deployedHost (activate deployedHost [] None) []).
    destruct (Hc 0 [700; 1500] 2100) as (ps & Hl & _ & Hs & _).
    + vm_compute. discriminate.
    + simpl. lia.
    + simpl. lia.
    + exists ps. split; [|exact Hs]. rewrite Hl.
      match goal with |- ?a ++ _ = _ =>
        assert (E : a = []) by (vm_compute; reflexivity); rewrite E end.
      reflexivity.
  - rewrite run_app. destruct (Hb' 300 [] 2000) as (p & Hl & Hs & _).
    + vm_compute. discriminate.
    + exact I.
    + simpl. lia.
    + exists p. split; [|exact Hs]. rewrite Hl.
      match goal with |- ?a ++ _ = _ =>
        assert (E : a = []) by (vm_compute; reflexivity); rewrite E end.
      reflexivity.
  - vm_compute. reflexivity.
Defined.

(* ====================================================================== *)
(** * The matcher finds a match whenever there is one *)
(* ====================================================================== *)

Lemma strip_prefix_app l s : strip_prefix l (l ++ s) = Some s.
Proof. induction l as [|a l IH]; simpl; [done|]. by rewrite N.eqb_refl. Qed.

Lemma rstar_complete c w : ∀ i s' cs (k : cont) m,
  forallb (cset_mem c) w = true → k (i + length w)%nat s' cs = Some m →
  ∃ m', rstar c i (w ++ s') cs k = Some m'.
Proof.
  induction w as [|x w IH]; intros i s' cs k m Hw Hk.
  - rewrite Nat.add_0_r in Hk. destruct s' as [|y s']; simpl; [eauto|].
    destruct (cset_mem c y); [|eauto].
    destruct (rstar c (S i) s' cs k); eauto.
  - simpl in Hw. apply andb_true_iff in Hw as [Hx Hw]. simpl. rewrite Hx.
    destruct (IH (S i) s' cs k m Hw) as [m' Hm'].
    { by replace (S i + length w)%nat with (i + length (x :: w))%nat
        by (simpl; lia). }
    rewrite Hm'. eauto.
Qed.

Lemma rmatch_complete r : ∀ i s cs i' s' cs' (k : cont) m,
  denotes r i s cs i' s' cs' → k i' s' cs' = Some m →
  ∃ m', rmatch r i s cs k = Some m'.
Proof.
  induction r as [| |l|c|c|c|r1 IH1 r2 IH2|r1 IH1 r2 IH2|n r IH];
    intros i s cs i' s' cs' k m H Hk; simpl in H; simpl.
  - destruct H as (-> & -> & -> & ->). eauto.
  - destruct H as (-> & -> & -> & ->). eauto.
  - destruct H as (-> & -> & ->). rewrite strip_prefix_app. eauto.
  - destruct H as (x & -> & Hx & -> & ->). rewrite Hx. eauto.
  - destruct H as (w & -> & Hw & -> & ->). by eapply rstar_complete.
  - destruct H as (w & -> & Hne & Hw & -> & ->).
    destruct w as [|x w]; [done|]. simpl in Hw.
    apply andb_true_iff in Hw as [Hx Hw]. simpl. rewrite Hx.
    eapply rstar_complete; [done|].
    by replace (S i + length w)%nat with (i + length (x :: w))%nat
      by (simpl; lia).
  - destruct H as (j & t & ds & H1 & H2).
    destruct (IH2 _ _ _ _ _ _ k m H2 Hk) as [m2 Hm2].
    by eapply IH1.
  - destruct H as [H|H].
    + destruct (IH1 _ _ _ _ _ _ k m H Hk) as [m1 ->]. eauto.
    + destruct (rmatch r1 i s cs k); [eauto|]. by eapply IH2.
  - destruct H as (ds & H & ->). by eapply IH.
Qed.

(** Greedy: the repetition settles on the longest run the continuation
    accepts. *)
Lemma rstar_greedy c : ∀ s i cs (k : cont) m,
  rstar c i s cs k = Some m →
  ∃ w s', s = w ++ s' ∧ forallb (cset_mem c) w = true
    ∧ k (i + length w)%nat s' cs = Some m
    ∧ ∀ w2 s2, s = w2 ++ s2 → forallb (cset_mem c) w2 = true →
        (length w < length w2)%nat → k (i + length w2)%nat s2 cs = None.
Proof.
  induction s as [|x s IH]; intros i cs k m H; simpl in H.
  - exists [], []. rewrite Nat.add_0_r. repeat split; try done.
    intros w2 s2 Hs _ Hlen. symmetry in Hs. apply app_eq_nil in Hs as [-> _].
    simpl in Hlen. lia.
  - assert (Hshort : k i (x :: s) cs = Some m →
      (∀ w2 s2, x :: s = w2 ++ s2 → forallb (cset_mem c) w2 = true →
         (0 < length w2)%nat → k (i + length w2)%nat s2 cs = None) →
      ∃ w s', x :: s = w ++ s' ∧ forallb (cset_mem c) w = true
        ∧ k (i + length w)%nat s' cs = Some m
        ∧ ∀ w2 s2, x :: s = w2 ++ s2 → forallb (cset_mem c) w2 = true →
            (length w < length w2)%nat → k (i + length w2)%nat s2 cs = None).
    { intros Hk Hnone. exists [], (x :: s). rewrite Nat.add_0_r.
      repeat split; try done. }
    destruct (cset_mem c x) eqn:Hx.
    + destruct (rstar c (S i) s cs k) as [m'|] eqn:Hr.
      * injection H as ->. destruct (IH _ _ _ _ Hr) as (w & s' & -> & Hw & Hk & Hmax).
        exists (x :: w), s'.
        replace (i + length (x :: w))%nat with (S i + length w)%nat
          by (simpl; lia).
        split; [done|]. split; [simpl; by rewrite Hx, Hw|]. split; [done|].
        intros w2 s2 Hs Hw2 Hlen. destruct w2 as [|y w2]; [simpl in Hlen; lia|].
        simpl in Hs. injection Hs as <- Hs. simpl in Hw2.
        apply andb_true_iff in Hw2 as [_ Hw2].
        replace (i + length (x :: w2))%nat with (S i + length w2)%nat
          by (simpl; lia).
        apply Hmax; [done|done|simpl in Hlen; lia].
      * apply Hshort; [done|].
        intros w2 s2 Hs Hw2 Hlen. destruct w2 as [|y w2]; [simpl in Hlen; lia|].
        simpl in Hs. injection Hs as <- Hs. simpl in Hw2.
        apply andb_true_iff in Hw2 as [_ Hw2].
        destruct (k (i + length (x :: w2))%nat s2 cs) as [m2|] eqn:Hk2; [|done].
        destruct (rstar_complete c w2 (S i) s2 cs k m2 Hw2) as [m3 Hm3].
        { by replace (S i + length w2)%nat with (i + length (x :: w2))%nat
            by (simpl; lia). }
        rewrite <- Hs in Hm3. congruence.
    + apply Hshort; [done|].
      intros w2 s2 Hs Hw2 Hlen. destruct w2 as [|y w2]; [simpl in Hlen; lia|].
      simpl in Hs. injection Hs as <- Hs. simpl in Hw2.
      apply andb_true_iff in Hw2 as [Hy _]. congruence.
Qed.

(** A pattern leaves the captures of the groups it does not contain. *)
Lemma denotes_keeps r : ∀ i s cs i' s' cs' n,
  denotes r i s cs i' s' cs' → n ∉ groups r → cs' !! n = cs !! n.
Proof.
  induction r as [| |l|c|c|c|r1 IH1 r2 IH2|r1 IH1 r2 IH2|g r IH];
    intros i s cs i' s' cs' n H Hn; simpl in H, Hn.
  - by destruct H as (_ & _ & _ & ->).
  - by destruct H as (_ & _ & _ & ->).
  - by destruct H as (_ & _ & ->).
  - by destruct H as (x & _ & _ & _ & ->).
  - by destruct H as (w & _ & _ & _ & ->).
  - by destruct H as (w & _ & _ & _ & _ & ->).
  - destruct H as (j & t & ds & H1 & H2).
    rewrite (IH2 _ _ _ _ _ _ n H2), (IH1 _ _ _ _ _ _ n H1); [done| |];
      intros Hin; apply Hn, elem_of_app; auto.
  - destruct H as [H|H]; [eapply IH1|eapply IH2]; try done;
      intros Hin; apply Hn, elem_of_app; auto.
  - destruct H as (ds & H & ->).
    rewrite lookup_insert_ne by (intros ->; apply Hn; left).
    eapply IH; [done|]. intros Hin. apply Hn. by right.
Qed.

Lemma denotes_anchored r : ∀ i s cs i' s' cs',
  anchoredEnd r = true → denotes r i s cs i' s' cs' → s' = [].
Proof.
  induction r as [| |l|c|c|c|r1 IH1 r2 IH2|r1 IH1 r2 IH2|g r IH];
    intros i s cs i' s' cs' Ha H; simpl in Ha, H; try done.
  - by destruct H as (-> & _ & -> & _).
  - destruct H as (j & t & ds & _ & H2). by eapply IH2.
  - apply andb_true_iff in Ha as [Ha1 Ha2]. destruct H as [H|H]; eauto.
  - destruct H as (ds & H & _). eauto.
Qed.

Lemma cset_termFree c x :
  csetTermFree c = true → cset_mem c x = true → is_line_terminator x = false.
Proof.
  destruct c as [| |lo hi]; simpl; intros Hc Hx.
  - by apply negb_true_iff in Hx.
  - unfold is_digit in Hx. apply andb_true_iff in Hx as [H1 H2].
    apply N.leb_le in H1, H2. apply bool_decide_eq_false.
    rewrite !elem_of_cons, elem_of_nil. lia.
  - apply andb_true_iff in Hc as [H1 H2]. apply andb_true_iff in Hx as [H3 H4].
    apply N.ltb_lt in H1, H2. apply N.leb_le in H3, H4.
    apply bool_decide_eq_false. rewrite !elem_of_cons, elem_of_nil. lia.
Qed.

Lemma forallb_termFree c w :
  csetTermFree c = true → forallb (cset_mem c) w = true →
  forallb (fun x => negb (is_line_terminator x)) w = true.
Proof.
  intros Hc. induction w as [|x w IH]; simpl; [done|].
  intros [Hx Hw]%andb_true_iff. rewrite (cset_termFree c x Hc Hx). simpl. auto.
Qed.

(** What a terminator-free pattern consumes is free of line terminators. *)
Lemma denotes_termFree r : ∀ i s cs i' s' cs',
  termFree r = true → denotes r i s cs i' s' cs' →
  ∃ w, s = w ++ s' ∧ forallb (fun x => negb (is_line_terminator x)) w = true.
Proof.
  induction r as [| |l|c|c|c|r1 IH1 r2 IH2|r1 IH1 r2 IH2|g r IH];
    intros i s cs i' s' cs' Ht H; simpl in Ht, H.
  - destruct H as (_ & _ & -> & _). by exists [].
  - destruct H as (_ & _ & -> & _). by exists [].
  - destruct H as (-> & _). by exists l.
  - destruct H as (x & -> & Hx & _). exists [x]. split; [done|].
    simpl. by rewrite (cset_termFree c x Ht Hx).
  - destruct H as (w & -> & Hw & _). exists w. split; [done|].
    by eapply forallb_termFree.
  - destruct H as (w & -> & _ & Hw & _). exists w. split; [done|].
    by eapply forallb_termFree.
  - apply andb_true_iff in Ht as [Ht1 Ht2]. destruct H as (j & t & ds & H1 & H2).
    destruct (IH1 _ _ _ _ _ _ Ht1 H1) as (w1 & -> & Hw1).
    destruct (IH2 _ _ _ _ _ _ Ht2 H2) as (w2 & -> & Hw2).
    exists (w1 ++ w2). rewrite <- app_assoc. split; [done|].
    rewrite forallb_app. by rewrite Hw1, Hw2.
  - apply andb_true_iff in Ht as [Ht1 Ht2]. destruct H as [H|H]; eauto.
  - destruct H as (ds & H & _). eauto.
Qed.

(* ====================================================================== *)
(** * Which lines [ISSUE_RE] matches, and how *)
(* ====================================================================== *)

Lemma ISSUE_RE_shape : ISSUE_RE = (RBol >> RGroup 1 (RStar CAny) >> issueTail)%re.
Proof. reflexivity. Qed.

Lemma isNumber_digits w :
  isNumber w = true → nonEmpty w = true ∧ forallb (cset_mem CDigit) w = true.
Proof. unfold isNumber. by intros [? ?]%andb_true_iff. Qed.

Lemma isSeverityWord_cases sev :
  isSeverityWord sev = true → sev = js "error" ∨ sev = js "warning" ∨ sev = js "info".
Proof.
  unfold isSeverityWord. intros H%bool_decide_eq_true.
  rewrite !elem_of_cons, elem_of_nil in H. tauto.
Qed.

Lemma severity_denotes sev i s' cs :
  isSeverityWord sev = true →
  denotes (RAlt (RLit (js "error")) (RAlt (RLit (js "warning")) (RLit (js "info"))))
    i (sev ++ s') cs (i + length sev)%nat s' cs.
Proof.
  intros Hsev. destruct (isSeverityWord_cases _ Hsev) as [-> | [-> | ->] ];
    [left|right; left|right; right]; by repeat split.
Qed.

(** The tail of the pattern accepts the fields of a line of the grammar. *)
Lemma issueTail_denotes lineStr colStr sev cd msg i cs :
  isNumber lineStr = true → isNumber colStr = true → isSeverityWord sev = true →
  isRuleCode cd = true → nonEmpty msg = true →
  forallb (cset_mem CAny) msg = true →
  ∃ i' cs',
    denotes issueTail i
      (js ":" ++ lineStr ++ js ":" ++ colStr ++ js ": " ++ sev ++ js ": "
       ++ cd ++ js " " ++ msg) cs i' [] cs'.
Proof.
  intros [Hl1 Hl2]%isNumber_digits [Hc1 Hc2]%isNumber_digits Hsev Hcode Hm1 Hm2.
  destruct cd as [|letter ds]; [done|]. simpl in Hcode.
  apply andb_true_iff in Hcode as [Hup Hds].
  apply isNumber_digits in Hds as [Hd1 Hd2].
  unfold issueTail. cbn [denotes].
  eexists _, _.
  eexists _, _, _. split; [split; [reflexivity|split; reflexivity]|].
  eexists _, _, _. split.
  { eexists. split; [|reflexivity]. exists lineStr. by repeat split. }
  eexists _, _, _. split; [split; [reflexivity|split; reflexivity]|].
  eexists _, _, _. split.
  { eexists. split; [|reflexivity]. exists colStr. by repeat split. }
  eexists _, _, _. split; [split; [reflexivity|split; reflexivity]|].
  eexists _, _, _. split.
  { eexists. split; [|reflexivity]. by apply severity_denotes. }
  eexists _, _, _. split; [split; [reflexivity|split; reflexivity]|].
  eexists _, _, _. split.
  { eexists. split; [|reflexivity].
    eexists _, _, _. split.
    - exists letter. split; [reflexivity|]. split; [exact Hup|]. split; reflexivity.
    - exists ds. by repeat split. }
  eexists _, _, _. split; [split; [reflexivity|split; reflexivity]|].
  eexists _, _, _. split.
  { eexists. split; [|reflexivity]. exists msg.
    split; [symmetry; apply app_nil_r|]. by repeat split. }
  repeat split.
Qed.

Lemma attempt_path (l : jsstring) :
  attempt ISSUE_RE 0 l
  = rstar CAny 0 l ∅
      (fun i' s' cs' =>
         rmatch issueTail i' s' (<[1%nat := take (i' - 0) l]> cs')
           (fun i'' _ cs => Some (<[0%nat := take (i'' - 0) l]> cs))).
Proof. reflexivity. Qed.

(** Every line of the grammar whose path and message hold no line
    terminator is matched. *)
Lemma grammar_line_matched l path lineStr colStr sev cd msg :
  issueLine l path lineStr colStr sev cd msg →
  forallb (cset_mem CAny) path = true → forallb (cset_mem CAny) msg = true →
  ∃ m, str_match l ISSUE_RE = Some m.
Proof.
  intros (Heq & Hl & Hc & Hs & Hcd & Hm) Hpath Hmsg.
  rewrite str_match_attempt, attempt_path.
  set (k0 := fun (i'' : nat) (_ : jsstring) (cs : captures) =>
               Some (<[0%nat := take (i'' - 0) l]> cs)).
  set (K := fun (i' : nat) (s' : jsstring) (cs' : captures) =>
              rmatch issueTail i' s' (<[1%nat := take (i' - 0) l]> cs') k0).
  destruct (issueTail_denotes lineStr colStr sev cd msg (0 + length path)
              (<[1%nat := take (0 + length path - 0) l]> ∅) Hl Hc Hs Hcd Hm Hmsg)
    as (i' & cs' & Hden).
  destruct (rmatch_complete issueTail _ _ _ _ _ _ k0 _ Hden eq_refl) as [m' Hm'].
  assert (Hrw : rstar CAny 0 l ∅ K
                = rstar CAny 0 (path ++ js ":" ++ lineStr ++ js ":" ++ colStr
                                ++ js ": " ++ sev ++ js ": " ++ cd ++ js " " ++ msg)
                    ∅ K) by (by rewrite <- Heq).
  rewrite Hrw. eapply rstar_complete; [exact Hpath|]. exact Hm'.
Qed.

(** A match covers the whole line, which then holds no line terminator. *)
Lemma matched_whole_line l m :
  str_match l ISSUE_RE = Some m →
  m !! 0%nat = Some l
  ∧ forallb (fun x => negb (is_line_terminator x)) l = true.
Proof.
  rewrite str_match_attempt. unfold attempt. intros H.
  apply rmatch_sound in H as (i' & s' & cs' & Hden & Hm).
  injection Hm as <-.
  pose proof (denotes_anchored ISSUE_RE _ _ _ _ _ _ eq_refl Hden) as ->.
  destruct (denotes_consumes _ _ _ _ _ _ _ Hden) as (w & Hw & ->).
  rewrite app_nil_r in Hw. subst w.
  destruct (denotes_termFree ISSUE_RE _ _ _ _ _ _ eq_refl Hden) as (w & Hw & Hfree).
  rewrite app_nil_r in Hw. subst w.
  split; [|done]. rewrite lookup_insert_eq. f_equal.
  replace (0 + length l - 0)%nat with (length l) by lia. apply firstn_all.
Qed.

Lemma forallb_app_l {A} (f : A → bool) (a b : list A) :
  forallb f (a ++ b) = true → forallb f a = true.
Proof. rewrite forallb_app. by intros [? _]%andb_true_iff. Qed.

(** Greedy from the right: no reading of a matched line by the grammar has
    a longer path than the path group. *)
Lemma matched_path_longest l m path lineStr colStr sev cd msg :
  str_match l ISSUE_RE = Some m →
  issueLine l path lineStr colStr sev cd msg →
  ∃ captured, m !! 1%nat = Some captured ∧ (length path ≤ length captured)%nat.
Proof.
  intros Hm Hline.
  destruct (matched_whole_line _ _ Hm) as [_ Hfree].
  pose proof Hm as Hm'. rewrite str_match_attempt, attempt_path in Hm'.
  apply rstar_greedy in Hm' as (w & s' & Hl & Hw & Hk & Hmax).
  apply rmatch_sound in Hk as (i' & t' & cs' & Hden & Hk).
  injection Hk as <-.
  exists w. split.
  - rewrite lookup_insert_ne by done.
    rewrite (denotes_keeps issueTail _ _ _ _ _ _ 1%nat Hden).
    + rewrite lookup_insert_eq. f_equal.
      replace (0 + length w - 0)%nat with (length w) by lia.
      rewrite Hl. apply take_app_length.
    + apply (bool_decide_eq_false_1 _). vm_compute. reflexivity.
  - destruct (Nat.le_gt_cases (length path) (length w)) as [|Hlt]; [done|].
    exfalso. destruct Hline as (Heq & Hln & Hc & Hs & Hcd & Hmsg).
    assert (Hany : ∀ u, forallb (fun x => negb (is_line_terminator x)) u
                        = forallb (cset_mem CAny) u) by done.
    rewrite Heq in Hfree.
    assert (Hpath : forallb (cset_mem CAny) path = true).
    { rewrite <- Hany. by eapply forallb_app_l. }
    assert (Hmsgfree : forallb (cset_mem CAny) msg = true).
    { rewrite <- Hany. rewrite !forallb_app in Hfree.
      repeat (apply andb_true_iff in Hfree as [_ Hfree]). done. }
    destruct (issueTail_denotes lineStr colStr sev cd msg (0 + length path)
                (<[1%nat := take (0 + length path - 0) l]> ∅)
                Hln Hc Hs Hcd Hmsg Hmsgfree) as (j & ds & Hden2).
    destruct (rmatch_complete issueTail _ _ _ _ _ _
                (fun (i'' : nat) (_ : jsstring) (cs : captures) =>
                   Some (<[0%nat := take (i'' - 0) l]> cs)) _ Hden2 eq_refl)
      as [m2 Hm2].
    specialize (Hmax path _ Heq Hpath Hlt). cbv beta in Hmax. congruence.
Qed.

(* ====================================================================== *)
(** * More on the output parser *)
(* ====================================================================== *)

Lemma split_nonempty sep s : split sep s ≠ [].
Proof.
  destruct s as [|c s]; simpl; [done|].
  destruct (c =? sep)%N; [done|]. by destruct (split sep s).
Qed.

Lemma split_app_sep sep a b :
  split sep (a ++ sep :: b) = split sep a ++ split sep b.
Proof.
  induction a as [|c a IH]; simpl.
  - by rewrite N.eqb_refl.
  - destruct (c =? sep)%N; [by rewrite IH|].
    rewrite IH. pose proof (split_nonempty sep a).
    by destruct (split sep a).
Qed.

Lemma split_no_sep sep s : sep ∉ s → split sep s = [s].
Proof.
  induction s as [|c s IH]; intros Hs; simpl; [done|].
  destruct (N.eqb_spec c sep) as [->|Hne]; [destruct Hs; left|].
  rewrite IH; [done|]. intros Hin. apply Hs. by right.
Qed.

Lemma lineDiagnostics_length l : (length (lineDiagnostics l) ≤ 1)%nat.
Proof.
  unfold lineDiagnostics. destruct (str_match l ISSUE_RE) as [m|]; simpl; [|lia].
  destruct (issueDiagnostic m); simpl; lia.
Qed.

Lemma flat_map_length_le (lines : list jsstring) :
  (length (flat_map lineDiagnostics lines) ≤ length lines)%nat.
Proof.
  induction lines as [|l lines IH]; simpl; [lia|].
  rewrite length_app. pose proof (lineDiagnostics_length l). lia.
Qed.

(** X1: a report made of two reports joined by a line feed parses to the
    diagnostics of the first followed by those of the second, and a report
    never yields more diagnostics than it has lines. *)
Theorem parse_concatenation (a b : jsstring) :
  ∃ da db,
    parseOutput a = Some da ∧ parseOutput b = Some db
    ∧ parseOutput (a ++ LF :: b) = Some (da ++ db)
    ∧ (length da ≤ length (split LF a))%nat.
Proof.
  unfold parseOutput. rewrite split_app_sep, !parseLines_flat, flat_map_app.
  eexists _, _. repeat split. simpl. apply flat_map_length_le.
Qed.

(** X2: a matched line holds no line terminator, so a line with a carriage
    return in it (a report with CR LF line ends) gives no diagnostic: a
    report whose lines are all empty or hold a line terminator parses to
    the empty array. *)
Theorem line_terminators_block_match :
  (∀ l m c, str_match l ISSUE_RE = Some m → c ∈ l → is_line_terminator c = false)
  ∧ (∀ stdout,
       (∀ l, l ∈ split LF stdout →
          l = [] ∨ ∃ c, c ∈ l ∧ is_line_terminator c = true) →
       parseOutput stdout = Some []).
Proof.
  assert (Hfree : ∀ l m c, str_match l ISSUE_RE = Some m → c ∈ l →
                           is_line_terminator c = false).
  { intros l m c Hm Hc. destruct (matched_whole_line _ _ Hm) as [_ Hall].
    rewrite forallb_forall in Hall. apply list_elem_of_In in Hc.
    specialize (Hall c Hc). by apply negb_true_iff in Hall. }
  split; [exact Hfree|].
  intros stdout Hlines. unfold parseOutput. apply parseLines_none.
  intros l Hl. destruct (str_match l ISSUE_RE) as [m|] eqn:Hm; [|done].
  destruct (Hlines l Hl) as [->|(c & Hc & Hterm)].
  - vm_compute in Hm. discriminate.
  - rewrite (Hfree _ _ _ Hm Hc) in Hterm. discriminate.
Qed.

Lemma line_terminators_block_match_witness :
  parseOutput (js "a.py:1:1: error: T001 x" ++ [13; 10]%N
               ++ js "b.py:2:1: info: G007 y" ++ [13; 10]%N) = Some [].
Proof.
  apply (proj2 line_terminators_block_match).
  intros l Hl.
  change (split LF _) with
    [js "a.py:1:1: error: T001 x" ++ [13%N];
     js "b.py:2:1: info: G007 y" ++ [13%N]; []] in Hl.
  rewrite !elem_of_cons, elem_of_nil in Hl.
  destruct Hl as [->|[->|[->|[]]]]; [right|right|by left];
    (exists 13%N; split; [|reflexivity]); apply elem_of_app; right; left.
Defined.

(** X3: every line of the grammar whose path and message hold no line
    terminator yields exactly one diagnostic. *)
Theorem grammar_line_yields_one (l path lineStr colStr sev cd msg : jsstring) :
  issueLine l path lineStr colStr sev cd msg →
  forallb (fun c => negb (is_line_terminator c)) path = true →
  forallb (fun c => negb (is_line_terminator c)) msg = true →
  ∃ d, parseOutput l = Some [d] ∧ source d = js "tangolint".
Proof.
  intros Hline Hpath Hmsg.
  destruct (grammar_line_matched _ _ _ _ _ _ _ Hline Hpath Hmsg) as [m Hm].
  destruct (matched_whole_line _ _ Hm) as [_ Hfree].
  assert (Hlf : LF ∉ l).
  { intros Hin. rewrite forallb_forall in Hfree. apply list_elem_of_In in Hin.
    by specialize (Hfree _ Hin). }
  destruct (matched_line_diagnostic _ _ Hm)
    as (? & ? & ? & ? & ? & ? & ? & ? & _ & _ & _ & _ & _ & _ & _ & Hd).
  eexists. unfold parseOutput. rewrite (split_no_sep _ _ Hlf). simpl.
  rewrite Hm, Hd. simpl. split; reflexivity.
Qed.

Lemma grammar_line_yields_one_witness :
  ∃ d, parseOutput (js "C:\proj\dev.py:3:7: error: T010 needs a type") = Some [d]
       ∧ source d = js "tangolint".
Proof.
  apply (grammar_line_yields_one _ (js "C:\proj\dev.py") (js "3") (js "7")
           (js "error") (js "T010") (js "needs a type")).
  - repeat split; vm_compute; reflexivity.
  - vm_compute. reflexivity.
  - vm_compute. reflexivity.
Defined.

(** X4: the six groups of a match, put back between the separators of the
    grammar, are the line itself, group 0 is the whole line, and the
    diagnostic carries group 5 as its code and, as its message, the code,
    a colon, a space and group 6. *)
Theorem groups_render_line (l : jsstring) (m : captures) :
  str_match l ISSUE_RE = Some m →
  m !!! 0%nat = l
  ∧ l = m !!! 1%nat ++ js ":" ++ m !!! 2%nat ++ js ":" ++ m !!! 3%nat ++ js ": "
        ++ m !!! 4%nat ++ js ": " ++ m !!! 5%nat ++ js " " ++ m !!! 6%nat
  ∧ ∃ d, issueDiagnostic m = Some d
         ∧ code d = m !!! 5%nat
         ∧ message d = m !!! 5%nat ++ js ": " ++ m !!! 6%nat.
Proof.
  intros Hm.
  destruct (matched_whole_line _ _ Hm) as [H0 _].
  destruct (issue_match_fields _ _ Hm)
    as (path & lineStr & colStr & sev & cd & msg & Hline & H1 & H2 & H3 & H4 & H5 & H6).
  pose proof Hline as (Heq & Hl & Hc & _).
  destruct (issueDiagnostic_fields m _ _ _ _ _ H2 H3 H4 H5 H6 Hl Hc)
    as (ln & col & _ & _ & _ & _ & Hd).
  rewrite (lookup_total_correct _ _ _ H0), (lookup_total_correct _ _ _ H1),
    (lookup_total_correct _ _ _ H2), (lookup_total_correct _ _ _ H3),
    (lookup_total_correct _ _ _ H4), (lookup_total_correct _ _ _ H5),
    (lookup_total_correct _ _ _ H6).
  split; [done|]. split; [done|]. eexists. split; [exact Hd|]. done.
Qed.

Lemma groups_render_line_witness :
  ∃ m, str_match (js "src/dev.py:10:4: warning: T023 needs 'description'") ISSUE_RE
       = Some m
       ∧ m !!! 1%nat = js "src/dev.py" ∧ m !!! 6%nat = js "needs 'description'"
       ∧ m !!! 0%nat = js "src/dev.py:10:4: warning: T023 needs 'description'".
Proof.
  eexists. split; [vm_compute; reflexivity|].
  split; [vm_compute; reflexivity|]. split; [vm_compute; reflexivity|].
  refine (proj1 (groups_render_line _ _ _)). vm_compute. reflexivity.
Defined.

(** X5: the severity of a diagnostic is read off the severity word of its
    line: Error for error, Warning for warning, Information for info; no
    diagnostic has severity Hint. *)
Theorem severity_mapping (stdout : jsstring) (ds : list Diagnostic) (d : Diagnostic) :
  parseOutput stdout = Some ds → d ∈ ds →
  severity d ≠ Hint
  ∧ ∃ l m, l ∈ split LF stdout ∧ str_match l ISSUE_RE = Some m
      ∧ issueDiagnostic m = Some d
      ∧ ((m !!! 4%nat = js "error" ∧ severity d = Error)
         ∨ (m !!! 4%nat = js "warning" ∧ severity d = Warning)
         ∨ (m !!! 4%nat = js "info" ∧ severity d = Information)).
Proof.
  unfold parseOutput. rewrite parseLines_flat. intros [= <-] Hd. simpl in Hd.
  apply elem_of_flat_lineDiagnostics in Hd as (l & m & Hl & Hm & Hd).
  destruct (issue_match_fields _ _ Hm)
    as (path & lineStr & colStr & sev & cd & msg & Hline & H1 & H2 & H3 & H4 & H5 & H6).
  pose proof Hline as (Heq & Hln & Hc & Hsev & _).
  destruct (issueDiagnostic_fields m _ _ _ _ _ H2 H3 H4 H5 H6 Hln Hc)
    as (ln & col & _ & _ & _ & _ & Hd').
  assert (Hs : severity d = toVSCodeSeverity sev).
  { rewrite Hd in Hd'. by injection Hd' as ->. }
  split.
  - rewrite Hs. by destruct (isSeverityWord_cases _ Hsev) as [-> | [-> | ->] ].
  - exists l, m. do 3 (split; [done|]).
    rewrite (lookup_total_correct _ _ _ H4), Hs.
    destruct (isSeverityWord_cases _ Hsev) as [-> | [-> | ->] ];
      [left|right; left|right; right]; done.
Qed.

Lemma severity_mapping_witness :
  ∃ d, parseOutput (js "a.py:2:0: info: G006 one import per line") = Some [d]
       ∧ severity d ≠ Hint.
Proof.
  eexists. split; [vm_compute; reflexivity|].
  apply (severity_mapping (js "a.py:2:0: info: G006 one import per line") _ _ eq_refl).
  left.
Defined.

(** X6: the match is anchored from the right: among the readings of a
    matched line by the grammar none has a longer path than group 1, so
    when the message itself reads as an issue, the fields come from the
    rightmost one. *)
Theorem path_group_longest (l : jsstring) (m : captures)
    (path lineStr colStr sev cd msg : jsstring) :
  str_match l ISSUE_RE = Some m →
  issueLine l path lineStr colStr sev cd msg →
  (length path ≤ length (m !!! 1%nat))%nat.
Proof.
  intros Hm Hline.
  destruct (matched_path_longest _ _ _ _ _ _ _ _ Hm Hline) as (w & Hw & Hlen).
  by rewrite (lookup_total_correct _ _ _ Hw).
Qed.

Lemma path_group_longest_witness :
  let l := js "a:1:2: error: T001 b:3:4: warning: G001 z" in
  let m := default ∅ (str_match l ISSUE_RE) in
  (length (js "a") ≤ length (m !!! 1%nat))%nat
  ∧ m !!! 1%nat = js "a:1:2: error: T001 b"
  ∧ ∃ d, parseOutput l = Some [d]
         ∧ severity d = Warning ∧ line (range_start (range d)) = 2.
Proof.
  intros l m. split; [|split].
  - apply (path_group_longest l m (js "a") (js "1") (js "2") (js "error")
             (js "T001") (js "b:3:4: warning: G001 z")).
    + vm_compute. reflexivity.
    + repeat split; vm_compute; reflexivity.
  - vm_compute. reflexivity.
  - eexists. split; [vm_compute; reflexivity|]. split; reflexivity.
Defined.

(* ====================================================================== *)
(** * Settings made of white space, and the interpreter *)
(* ====================================================================== *)

Lemma trim_blank s : blank s = true → trim s = [].
Proof.
  unfold blank, trim. intros Hs.
  assert (Hstart : trimStart s = []).
  { induction s as [|c s IH]; [done|]. simpl in Hs.
    apply andb_true_iff in Hs as [Hc Hs]. simpl. rewrite Hc. auto. }
  by rewrite Hstart.
Qed.

(** X7: a configured interpreter path is used trimmed; when the setting is
    unset or holds only white space, the first token of the command the
    Python extension reports is used, and [python3] when there is none.
    Likewise a [linterPath] that is unset or white space is no candidate:
    the resolver goes on to the deployed copy and the workspace copy. *)
Theorem blank_settings_are_unset (h : Host) :
  let pythonPath := getString (configuration h) (js "pythonPath") [] in
  let linterPath := getString (configuration h) (js "linterPath") [] in
  (nonEmpty (trim pythonPath) = true → getPythonPath h = trim pythonPath)
  ∧ (blank pythonPath = true →
     getPythonPath h
     = match execCommand h with
       | Some (first :: _) => first
       | _ => js "python3"
       end)
  ∧ (blank linterPath = true →
     ∀ deployed document,
       findLinterPath h deployed document
       = if truthyPath deployed && from_option (existsSync h) false deployed
         then deployed
         else match getWorkspaceFolder h (uri document) with
              | Some wsFolder =>
                  if existsSync h (path_join h (fsPath wsFolder) (js "tangolint.py"))
                  then Some (path_join h (fsPath wsFolder) (js "tangolint.py"))
                  else None
              | None => None
              end).
Proof.
  intros pythonPath linterPath. split; [|split].
  - intros Hne. unfold getPythonPath. fold pythonPath. by rewrite Hne.
  - intros Hb. unfold getPythonPath. fold pythonPath. by rewrite (trim_blank _ Hb).
  - intros Hb deployed document. unfold findLinterPath. fold linterPath.
    by rewrite (trim_blank _ Hb).
Qed.

Lemma blank_settings_are_unset_witness :
  getPythonPath (sampleHost [("pythonPath", "  /usr/bin/python3.11 ")]%string [] [])
  = js "/usr/bin/python3.11"
  ∧ getPythonPath (sampleHost [("pythonPath", "   ")]%string [] []) = js "python3"
  ∧ findLinterPath (sampleHost [("linterPath", " ")]%string [] [" "; "/store/tangolint.py"]%string)
      (Some (js "/store/tangolint.py")) devDocument
    = Some (js "/store/tangolint.py").
Proof.
  split; [|split].
  - rewrite (proj1 (blank_settings_are_unset _)); vm_compute; reflexivity.
  - rewrite (proj1 (proj2 (blank_settings_are_unset _))); vm_compute; reflexivity.
  - rewrite (proj2 (proj2 (blank_settings_are_unset _))); vm_compute; reflexivity.
Defined.

(* ====================================================================== *)
(** * The status summary and the completion of a run *)
(* ====================================================================== *)

Lemma countSeverity_pos sev ds :
  (0 <? countSeverity sev ds)%nat = true ↔ ∃ d, d ∈ ds ∧ severity d = sev.
Proof.
  unfold countSeverity. rewrite Nat.ltb_lt. split.
  - intros Hlen. destruct (filter _ ds) as [|d l] eqn:Hf; [simpl in Hlen; lia|].
    assert (Hd : d ∈ filter (fun d => severity d = sev) ds) by (rewrite Hf; left).
    apply list_elem_of_filter in Hd as [? ?]. eauto.
  - intros (d & Hd & Hs).
    assert (Hin : d ∈ filter (fun d => severity d = sev) ds)
      by (by apply list_elem_of_filter).
    destruct (filter _ ds); [by apply elem_of_nil in Hin|simpl; lia].
Qed.

Lemma countSeverity_zero sev ds :
  (∀ d, d ∈ ds → severity d ≠ sev) → (0 <? countSeverity sev ds)%nat = false.
Proof.
  intros Hno. destruct (0 <? countSeverity sev ds)%nat eqn:Hc; [|done].
  apply countSeverity_pos in Hc as (d & Hd & Hs). by destruct (Hno d Hd).
Qed.

(** X8: the summary shows errors (with both counts) as soon as one
    diagnostic is an Error, warnings when none is an Error and one is a
    Warning, and otherwise the clean state with the tooltip "no issues",
    also when the set holds Information diagnostics; it never changes
    whether the item is shown, nor the stored diagnostics. *)
Theorem status_summary (diagnostics : list Diagnostic) (st : State) :
  let st' := statusDone diagnostics st in
  let errors := numberToString (countSeverity Error diagnostics) in
  let warnings := numberToString (countSeverity Warning diagnostics) in
  ((∃ d, d ∈ diagnostics ∧ severity d = Error) →
   text (statusBarItem st')
   = js "$(error) TangoLint: " ++ errors ++ js "E " ++ warnings ++ js "W")
  ∧ ((∀ d, d ∈ diagnostics → severity d ≠ Error) →
     (∃ d, d ∈ diagnostics ∧ severity d = Warning) →
     text (statusBarItem st') = js "$(warning) TangoLint: " ++ warnings ++ js "W")
  ∧ ((∀ d, d ∈ diagnostics → severity d ≠ Error ∧ severity d ≠ Warning) →
     text (statusBarItem st') = js "$(check) TangoLint"
     ∧ tooltip (statusBarItem st') = js "TangoLint: no issues")
  ∧ visible (statusBarItem st') = visible (statusBarItem st)
  ∧ diagnosticCollection st' = diagnosticCollection st.
Proof.
  intros st' errors warnings. subst st' errors warnings.
  unfold statusDone. cbn [statusBarItem setStatusBar diagnosticCollection].
  split; [|split; [|split; [|split]]].
  - intros He. apply countSeverity_pos in He. by rewrite He.
  - intros Hne Hw. rewrite (countSeverity_zero _ _ Hne).
    apply countSeverity_pos in Hw. by rewrite Hw.
  - intros Hnone.
    rewrite (countSeverity_zero Error), (countSeverity_zero Warning);
      [done| |]; intros d Hd; by destruct (Hnone d Hd).
  - by repeat case_match.
  - done.
Qed.

Lemma status_summary_witness :
  ∃ ds, parseOutput (js "a.py:1:0: info: G006 x
a.py:2:0: info: T024 y") = Some ds
    ∧ length ds = 2%nat
    ∧ tooltip (statusBarItem (statusDone ds initial)) = js "TangoLint: no issues".
Proof.
  eexists. split; [vm_compute; reflexivity|]. split; [reflexivity|].
  apply (proj1 (proj2 (proj2 (status_summary _ initial)))).
  intros d Hd. rewrite !elem_of_cons, elem_of_nil in Hd.
  destruct Hd as [->|[->|[]]]; split; discriminate.
Defined.

Lemma blank_trim_empty s : blank s = true → nonEmpty s && nonEmpty (trim s) = false.
Proof. intros Hb. rewrite (trim_blank _ Hb). apply andb_false_r. Qed.

Lemma onExit_blank document stdout stderr st :
  blank stderr = true →
  onExit document stdout stderr st
  = statusDone (flat_map lineDiagnostics (split LF stdout))
      (setDiagnostics (insert (uriString (uri document))
                         (flat_map lineDiagnostics (split LF stdout))) st).
Proof.
  intros Hb. unfold onExit. rewrite (blank_trim_empty _ Hb).
  unfold parseOutput. by rewrite parseLines_flat.
Qed.

(** X9: when the error stream is empty or white space, the completion
    callback stores the parsed diagnostics under the document's identity in
    place of what was there, leaves the entries of other documents, writes
    nothing to the console and shows the summary of the new set; the later
    of two completions for a document is the one that stays.  A run that
    wrote nothing at all leaves the document with an empty set. *)
Theorem completion_replaces_diagnostics (document : TextDocument)
    (stdout stderr : jsstring) (st : State) :
  blank stderr = true →
  let key := uriString (uri document) in
  let st' := onExit document stdout stderr st in
  ∃ ds, parseOutput stdout = Some ds
    ∧ diagnosticCollection st' = <[key := ds]> (diagnosticCollection st)
    ∧ (∀ k, k ≠ key → diagnosticCollection st' !! k = diagnosticCollection st !! k)
    ∧ statusBarItem st' = statusBarItem (statusDone ds st)
    ∧ consoleErrors st' = consoleErrors st
    ∧ (∀ out err,
         diagnosticCollection (onExit document stdout stderr
                                 (onExit document out err st)) !! key = Some ds)
    ∧ (stdout = [] → ds = []).
Proof.
  intros Hb key st'. subst st' key.
  exists (flat_map lineDiagnostics (split LF stdout)).
  split; [unfold parseOutput; by rewrite parseLines_flat|].
  rewrite !(onExit_blank _ _ _ _ Hb).
  unfold statusDone, setStatusBar, setDiagnostics.
  cbn [diagnosticCollection statusBarItem consoleErrors].
  split; [done|]. split; [intros k Hk; by rewrite lookup_insert_ne|].
  split; [done|]. split; [done|]. split.
  - intros out err. rewrite (onExit_blank _ _ _ _ Hb).
    unfold statusDone, setStatusBar, setDiagnostics.
    cbn [diagnosticCollection]. by rewrite lookup_insert_eq.
  - by intros ->.
Qed.

Lemma completion_replaces_diagnostics_witness :
  let st := setDiagnostics (insert (uriString (uri devDocument)) [])
              (activate deployedHost [devDocument] None) in
  let st' := onExit devDocument [] [] st in
  diagnosticCollection st' !! uriString (uri devDocument) = Some []
  ∧ text (statusBarItem st') = js "$(check) TangoLint".
Proof.
  intros st st'.
  destruct (completion_replaces_diagnostics devDocument [] [] st eq_refl)
    as (ds & _ & Hd & _ & Hs & _ & _ & Hempty).
  specialize (Hempty eq_refl). subst ds. subst st'. cbv zeta in Hd, Hs.
  rewrite Hd, Hs. split; [apply lookup_insert_eq|reflexivity].
Defined.

(* ====================================================================== *)
(** * Starting a run, and closing a document while one is in flight *)
(* ====================================================================== *)

(** X10: for an eligible document whose analyzer is found, [lintDocument]
    starts exactly one subprocess, also when runs for the document are
    still in flight: the interpreter with the analyzer path, [--no-color],
    one [--disable] pair per disabled rule and the file path last, in the
    analyzer's directory; the running status is shown and every stored
    diagnostic set stays as it is until the run completes. *)
Theorem lint_starts_one_run (h : Host) (document : TextDocument) (st : State)
    (lp : jsstring) :
  eligible document = true →
  findLinterPath h (deployedLinterPath st) document = Some lp →
  nonEmpty lp = true →
  let st' := lintDocument h document st in
  ∃ p, launches st' = launches st ++ [p]
    ∧ running st' = running st ++ [p]
    ∧ target p = document
    ∧ file p = getPythonPath h
    ∧ args p = [lp; js "--no-color"]
               ++ concat (map disablePair (getDisabledRules h))
               ++ [fsPath (uri document)]
    ∧ length (args p) = (3 + 2 * length (getDisabledRules h))%nat
    ∧ cwd p = path_dirname h lp
    ∧ started p = clock st
    ∧ diagnosticCollection st' = diagnosticCollection st
    ∧ text (statusBarItem st') = js "$(sync~spin) TangoLint"
    ∧ visible (statusBarItem st') = true.
Proof.
  intros He Hf Hlp st'. subst st'. unfold lintDocument. rewrite He, Hf.
  destruct lp as [|c lp]; [done|]. cbn [negb].
  eexists. unfold execFile, setProcesses, statusRunning, setStatusBar.
  cbn [launches running target file args cwd started diagnosticCollection
       statusBarItem text visible clock].
  split; [reflexivity|].
  cbn [launches running target file args cwd started diagnosticCollection
       statusBarItem text visible clock].
  split; [reflexivity|]. split; [reflexivity|].
  split; [reflexivity|]. split.
  { unfold disabledArgs. by rewrite flat_map_concat_map. }
  split; [|done].
  unfold disabledArgs. rewrite length_app, length_app.
  assert (Hlen : ∀ l : list jsstring,
            length (flat_map (fun code => [js "--disable"; code]) l)
            = (2 * length l)%nat).
  { induction l as [|x l IH]; [done|]. simpl in *. lia. }
  rewrite Hlen. cbn [length]. lia.
Qed.

Lemma lint_starts_one_run_witness :
  let st := activate quietHost [devDocument] None in
  ∃ p, launches (lintDocument quietHost devDocument st) = launches st ++ [p]
       ∧ args p = map js ["/store/tangolint.py"; "--no-color"; "--disable"; "T024";
                          "--disable"; "G007"; "/ws/dev.py"]%string
       ∧ length (launches (lintDocument quietHost devDocument st)) = 2%nat.
Proof.
  intros st.
  destruct (lint_starts_one_run quietHost devDocument st (js "/store/tangolint.py"))
    as (p & Hl & _ & _ & _ & Ha & _).
  - vm_compute. reflexivity.
  - vm_compute. reflexivity.
  - reflexivity.
  - exists p. split; [exact Hl|]. split.
    + rewrite Ha. vm_compute. reflexivity.
    + rewrite Hl, length_app. vm_compute. reflexivity.
Defined.

(** X11: closing a document removes its diagnostics and nothing else of
    the collection, but does not stop a run of it that is in flight: when
    that run completes (error stream blank) its diagnostics are stored
    under the identity of the closed document. *)
Theorem close_keeps_run_in_flight (h : Host) (st : State) (q : Process)
    (stdout stderr : jsstring) :
  subscribed st = true →
  List.find (fun r => Nat.eqb (pid r) (pid q)) (running st) = Some q →
  blank stderr = true →
  let key := uriString (uri (target q)) in
  let closed := handle h (DidClose (target q)) st in
  diagnosticCollection closed = delete key (diagnosticCollection st)
  ∧ running closed = running st
  ∧ launches closed = launches st
  ∧ ∃ ds, parseOutput stdout = Some ds
      ∧ diagnosticCollection (handle h (ProcessExit (pid q) stdout stderr) closed) !! key
        = Some ds.
Proof.
  intros Hsub Hq Hb key closed.
  assert (Hclosed : diagnosticCollection closed = delete key (diagnosticCollection st)
                    ∧ running closed = running st ∧ launches closed = launches st
                    ∧ subscribed closed = true).
  { subst closed. unfold handle. rewrite Hsub. cbn [negb].
    unfold onDidCloseTextDocument, cancelPending. cbn. by case_match. }
  destruct Hclosed as (Hd & Hr & Hl & Hs).
  do 3 (split; [done|]).
  exists (flat_map lineDiagnostics (split LF stdout)).
  split; [unfold parseOutput; by rewrite parseLines_flat|].
  unfold handle at 1. rewrite Hs, Hr, Hq. cbn [negb].
  rewrite (onExit_blank _ _ _ _ Hb).
  unfold statusDone, setStatusBar, setDiagnostics.
  cbn [diagnosticCollection]. by rewrite lookup_insert_eq.
Qed.

Lemma close_keeps_run_in_flight_witness :
  let st := run deployedHost (activate deployedHost [devDocument] None)
              [(10, DidClose devDocument);
               (20, ProcessExit 0 (js "dev.py:1:1: error: T010 m") [])] in
  ∃ d, diagnosticCollection st !! uriString (uri devDocument) = Some [d].
Proof.
  intros st.
  set (st0 := advance deployedHost 10 (activate deployedHost [devDocument] None)).
  destruct (close_keeps_run_in_flight deployedHost st0
              (default {| pid := 0; file := []; args := []; cwd := []; maxBuffer := 0;
                          started := 0; target := devDocument |}
                 (head (running st0)))
              (js "dev.py:1:1: error: T010 m") [])
    as (_ & _ & _ & ds & Hp & _).
  - vm_compute. reflexivity.
  - vm_compute. reflexivity.
  - reflexivity.
  - eexists. vm_compute. reflexivity.
Defined.

(* ====================================================================== *)
(** * Activation *)
(* ====================================================================== *)

Lemma runTimers_empty h fuel t st : timerQueue st = [] → runTimers h fuel t st = st.
Proof. intros Hq. destruct fuel; cbn [runTimers]; [done|]. by rewrite Hq. Qed.

Lemma advance_empty h t st :
  timerQueue st = [] → advance h t st = setClock (Z.max (clock st) t) st.
Proof. intros Hq. unfold advance. by rewrite runTimers_empty. Qed.

(** X12: while the change trigger is off (its default), no trace of events
    ever starts a timer: the queue and the timer table stay empty and no
    handle is ever handed out. *)
Theorem no_timers_when_change_off (h : Host) (docs : list TextDocument)
    (editor : option TextDocument) (trace : list (Z * event)) :
  getBoolean (configuration h) (js "lintOnChange") false = false →
  let st := run h (activate h docs editor) trace in
  timerQueue st = [] ∧ debounceTimers st = ∅ ∧ nextTimer st = 0%nat.
Proof.
  intros Hoff st. subst st.
  assert (Hstart : timerQueue (activate h docs editor) = []
                   ∧ debounceTimers (activate h docs editor) = ∅
                   ∧ nextTimer (activate h docs editor) = 0%nat).
  { unfold activate. destruct (deployScripts h); [done|].
    match goal with |- context [foldl ?f ?s docs] =>
      destruct (foldl_lint_frame h docs s) as (H1 & H2 & H3 & _) end.
    repeat case_match; simpl; rewrite ?H1, ?H2, ?H3; done. }
  revert Hstart. generalize (activate h docs editor).
  induction trace as [|e trace IH]; intros st Hst; [exact Hst|].
  change (run h st (e :: trace)) with (run h (step h st e) trace).
  apply IH. destruct Hst as (Hq & Ht & Hn).
  unfold step. rewrite (advance_empty _ _ _ Hq).
  set (st1 := setClock _ st).
  assert (Hst1 : timerQueue st1 = [] ∧ debounceTimers st1 = ∅ ∧ nextTimer st1 = 0%nat)
    by done.
  clearbody st1. clear Hq Ht Hn. destruct Hst1 as (Hq & Ht & Hn).
  unfold handle. destruct (subscribed st1); [|done]. cbn [negb].
  destruct e.2 as [doc|doc|doc|doc|ed|ed|p out err|].
  - unfold onDidOpenTextDocument. case_match; [|done].
    destruct (lintDocument_frame h doc st1) as (-> & -> & -> & _). done.
  - unfold onDidSaveTextDocument. case_match; [|done].
    destruct (lintDocument_frame h doc st1) as (-> & -> & -> & _). done.
  - unfold onDidChangeTextDocument. by rewrite Hoff.
  - unfold onDidCloseTextDocument, cancelPending. cbn.
    rewrite Ht, lookup_empty. cbn. by rewrite Hq, Ht, Hn, delete_empty.
  - done.
  - unfold lintFileCommand. destruct ed as [doc|]; [|done].
    destruct (lintDocument_frame h doc st1) as (-> & -> & -> & _). done.
  - case_match; [|done].
    match goal with |- context [onExit ?d ?o ?e ?s] =>
      destruct (onExit_frame d o e s) as (-> & -> & -> & _) end. done.
  - done.
Qed.

Lemma no_timers_when_change_off_witness :
  timerQueue (run bareHost (activate bareHost [] None)
                [(0, DidChange devDocument); (5, DidChange otherDocument)]) = [].
Proof.
  apply (no_timers_when_change_off bareHost [] None
           [(0, DidChange devDocument); (5, DidChange otherDocument)]).
  vm_compute. reflexivity.
Defined.

Lemma run_unsubscribed h trace : ∀ st,
  subscribed st = false → timerQueue st = [] →
  errorMessages (run h st trace) = errorMessages st
  ∧ subscribed (run h st trace) = false
  ∧ launches (run h st trace) = launches st
  ∧ diagnosticCollection (run h st trace) = diagnosticCollection st
  ∧ timerQueue (run h st trace) = []
  ∧ deployedLinterPath (run h st trace) = deployedLinterPath st
  ∧ statusBarItem (run h st trace) = statusBarItem st.
Proof.
  induction trace as [|e trace IH]; intros st Hsub Hq; [done|].
  change (run h st (e :: trace)) with (run h (step h st e) trace).
  assert (Hstep : step h st e = setClock (Z.max (clock st) e.1) st).
  { unfold step. rewrite (advance_empty _ _ _ Hq). unfold handle.
    cbn [subscribed setClock]. by rewrite Hsub. }
  rewrite Hstep. by apply (IH (setClock (Z.max (clock st) e.1) st)).
Qed.

(** X13: when copying the bundled scripts fails, activation stops there:
    one error message names the failure, nothing is subscribed, and
    whatever events follow, no run starts, no diagnostics are stored, no
    timer is queued and the status bar item is never shown. *)
Theorem failed_deployment_is_fatal (h : Host) (msg : jsstring)
    (docs : list TextDocument) (editor : option TextDocument)
    (trace : list (Z * event)) :
  deployFailure h = Some msg →
  let st := run h (activate h docs editor) trace in
  errorMessages st
  = [js "TangoLint: failed to deploy scripts " ++ [8212%N] ++ js " " ++ msg]
  ∧ subscribed st = false
  ∧ launches st = []
  ∧ diagnosticCollection st = ∅
  ∧ timerQueue st = []
  ∧ deployedLinterPath st = None
  ∧ visible (statusBarItem st) = false.
Proof.
  intros Hfail st. subst st. unfold activate, deployScripts. rewrite Hfail.
  match goal with |- context [run h ?s trace] =>
    destruct (run_unsubscribed h trace s eq_refl eq_refl)
      as (-> & -> & -> & -> & -> & -> & ->) end.
  done.
Qed.

Lemma failed_deployment_is_fatal_witness :
  let h := {| configuration := configuration deployedHost;
              existsSync := existsSync deployedHost;
              getWorkspaceFolder := getWorkspaceFolder deployedHost;
              path_join := posixJoin; path_dirname := posixDirname;
              execCommand := None; globalStoragePath := js "/store";
              deployFailure := Some (js "EACCES: permission denied") |} in
  launches (run h (activate h [devDocument] (Some devDocument))
              [(0, DidOpen devDocument); (1, LintFile (Some devDocument))]) = [].
Proof.
  intros h.
  apply (failed_deployment_is_fatal h (js "EACCES: permission denied")
           [devDocument] (Some devDocument)
           [(0, DidOpen devDocument); (1, LintFile (Some devDocument))]).
  reflexivity.
Defined.

Lemma lintDocument_targets h dep doc st :
  deployedLinterPath st = dep →
  map target (launches (lintDocument h doc st))
  = map target (launches st)
    ++ (if eligible doc && resolves h dep doc then [doc] else [])
  ∧ (diagnosticCollection st = ∅ → diagnosticCollection (lintDocument h doc st) = ∅)
  ∧ (running st = launches st →
     running (lintDocument h doc st) = launches (lintDocument h doc st))
  ∧ (clock (lintDocument h doc st) = clock st)
  ∧ (Forall (fun p => started p = clock st) (launches st) →
     Forall (fun p => started p = clock st) (launches (lintDocument h doc st))).
Proof.
  intros Hdep. unfold resolves, lintDocument. rewrite Hdep.
  destruct (eligible doc); cbn [negb andb].
  2: { by rewrite app_nil_r. }
  destruct (findLinterPath h dep doc) as [[|c lp]|]; cbn [truthyPath].
  - unfold setDiagnostics. cbn [launches running diagnosticCollection clock].
    rewrite app_nil_r. split; [done|].
    split; [intros ->; apply delete_empty|]. by repeat split.
  - unfold execFile, setProcesses, statusRunning, setStatusBar.
    cbn [launches running diagnosticCollection clock].
    rewrite map_app. cbn [map target].
    split; [done|]. split; [done|]. split; [by intros ->|]. split; [done|].
    intros Hall. apply Forall_app. split; [done|]. by constructor.
  - unfold setDiagnostics. cbn [launches running diagnosticCollection clock].
    rewrite app_nil_r. split; [done|].
    split; [intros ->; apply delete_empty|]. by repeat split.
Qed.

Lemma foldl_lint_targets h dep docs : ∀ st,
  deployedLinterPath st = dep →
  let st' := foldl (fun st doc => lintDocument h doc st) st docs in
  map target (launches st')
  = map target (launches st)
    ++ filter (fun d => eligible d && resolves h dep d = true) docs
  ∧ (diagnosticCollection st = ∅ → diagnosticCollection st' = ∅)
  ∧ (running st = launches st → running st' = launches st')
  ∧ clock st' = clock st
  ∧ (Forall (fun p => started p = clock st) (launches st) →
     Forall (fun p => started p = clock st) (launches st')).
Proof.
  induction docs as [|d docs IH]; intros st Hdep.
  { cbn [foldl]. cbv zeta. rewrite filter_nil, app_nil_r. done. }
  cbn [foldl]. cbv zeta.
  destruct (lintDocument_targets h dep d st Hdep) as (H1 & H2 & H3 & H4 & H5).
  destruct (lintDocument_frame h d st) as (_ & _ & _ & _ & Hd & _).
  destruct (IH (lintDocument h d st)) as (G1 & G2 & G3 & G4 & G5); [congruence|].
  cbv zeta in G1, G2, G3, G4, G5.
  rewrite G1, H1, <- app_assoc, filter_cons. rewrite G4, H4.
  split; [by case_decide; destruct (eligible d && resolves h dep d)|].
  split; [auto|]. split; [auto|]. split; [done|].
  intros Hall. rewrite H4 in G5. auto.
Qed.

(** X14: on a successful activation with the open trigger on, the
    documents already open are linted in their order: one run, started at
    once, for each that is eligible and whose analyzer is found, none for
    the others; with the open trigger off no run starts.  No diagnostics
    are stored yet. *)
Theorem startup_replays_open_documents (h : Host) (docs : list TextDocument)
    (editor : option TextDocument) :
  deployFailure h = None →
  let deployed := Some (path_join h (globalStoragePath h) (js "tangolint.py")) in
  let st := activate h docs editor in
  map target (launches st)
  = (if getBoolean (configuration h) (js "lintOnOpen") true
     then filter (fun d => eligible d && resolves h deployed d = true) docs
     else [])
  ∧ running st = launches st
  ∧ Forall (fun p => started p = 0) (launches st)
  ∧ diagnosticCollection st = ∅
  ∧ subscribed st = true.
Proof.
  intros Hok deployed st. subst st. unfold activate, deployScripts. rewrite Hok.
  set (st0 := {| deployedLinterPath := Some _; subscribed := true |}).
  destruct (foldl_lint_targets h deployed docs st0 eq_refl) as (H1 & H2 & H3 & H4 & H5).
  destruct (foldl_lint_frame h docs st0) as (_ & _ & _ & _ & H6).
  cbv zeta in H1, H2, H3, H4, H5, H6.
  assert (Hbase : launches st0 = [] ∧ running st0 = [] ∧ clock st0 = 0
                  ∧ diagnosticCollection st0 = ∅ ∧ subscribed st0 = true) by done.
  destruct Hbase as (B1 & B2 & B3 & B4 & B5).
  rewrite B1, B3 in *. cbn [map app] in H1.
  destruct (getBoolean (configuration h) (js "lintOnOpen") true);
    destruct (from_option isPython false editor);
    unfold setStatusBar;
    cbn [launches running diagnosticCollection subscribed];
    rewrite ?H1, ?H6, ?B1, ?B2, ?B4, ?B5;
    (split; [done|]); (split; [by auto|]); (split; [by auto|]);
    (split; [by auto|done]).
Qed.

Lemma startup_replays_open_documents_witness :
  map target (launches (activate deployedHost
                          [notesDocument; devDocument; untitledDocument; otherDocument]
                          None))
  = [devDocument; otherDocument].
Proof.
  rewrite (proj1 (startup_replays_open_documents deployedHost
                    [notesDocument; devDocument; untitledDocument; otherDocument]
                    None eq_refl)).
  vm_compute. reflexivity.
Defined.

(* ====================================================================== *)
(** * The timer table follows the timer queue; deactivation *)
(* ====================================================================== *)

Lemma tableLive_frame st st' :
  timerQueue st' = timerQueue st → debounceTimers st' = debounceTimers st →
  tableLive st → tableLive st'.
Proof. unfold tableLive. by intros -> ->. Qed.

Lemma elem_of_insertTimer tm q x : x ∈ insertTimer tm q ↔ x = tm ∨ x ∈ q.
Proof. by rewrite insertTimer_perm, elem_of_cons. Qed.

Lemma change_fields h doc st :
  subscribed st = true →
  getBoolean (configuration h) (js "lintOnChange") false = true →
  isPython doc = true →
  let key := uriString (uri doc) in
  let q' := match debounceTimers st !! key with
            | Some id => filter (fun tm => tid tm ≠ id) (timerQueue st)
            | None => timerQueue st
            end in
  timerQueue (handle h (DidChange doc) st)
  = insertTimer {| tid := nextTimer st; due := clock st + 600; tkey := key; tdoc := doc |} q'
  ∧ debounceTimers (handle h (DidChange doc) st)
    = <[key := nextTimer st]> (debounceTimers st).
Proof.
  intros Hsub Hcfg Hpy key q'. subst q'.
  unfold handle, onDidChangeTextDocument, setTimeout. rewrite Hsub, Hcfg, Hpy.
  cbn [negb]. fold key.
  destruct (cancelPending_queue key st) as (Hq & Ht & Hn & Hc & _).
  cbn. by rewrite Hq, Ht, Hn, Hc.
Qed.

Lemma close_fields h doc st :
  subscribed st = true →
  let key := uriString (uri doc) in
  let q' := match debounceTimers st !! key with
            | Some id => filter (fun tm => tid tm ≠ id) (timerQueue st)
            | None => timerQueue st
            end in
  timerQueue (handle h (DidClose doc) st) = q'
  ∧ debounceTimers (handle h (DidClose doc) st) = delete key (debounceTimers st).
Proof.
  intros Hsub key q'. subst q'.
  unfold handle, onDidCloseTextDocument. rewrite Hsub. cbn [negb]. fold key.
  destruct (cancelPending_queue key (setDiagnostics (delete key) st))
    as (Hq & Ht & _).
  cbn. by rewrite Hq, Ht.
Qed.

Lemma handle_tableLive h ev st :
  timersOk st → tableLive st → tableLive (handle h ev st).
Proof.
  intros Hok Hlive.
  destruct (subscribed st) eqn:Hsub; [|unfold handle; by rewrite Hsub].
  destruct ev as [doc|doc|doc|doc|ed|ed|p out err|].
  - unfold handle, onDidOpenTextDocument. rewrite Hsub. cbn [negb]. case_match; [|done].
    destruct (lintDocument_frame h doc st) as (? & ? & _). by eapply tableLive_frame.
  - unfold handle, onDidSaveTextDocument. rewrite Hsub. cbn [negb]. case_match; [|done].
    destruct (lintDocument_frame h doc st) as (? & ? & _). by eapply tableLive_frame.
  - destruct (getBoolean (configuration h) (js "lintOnChange") false) eqn:Hcfg;
      [destruct (isPython doc) eqn:Hpy|].
    + destruct (change_fields h doc st Hsub Hcfg Hpy) as (Hq & Ht).
      destruct (timersOkOn_cancel _ _ _ (uriString (uri doc)) Hok)
        as (_ & _ & Hkeep & _).
      intros k id Hk. rewrite Ht in Hk. rewrite Hq.
      destruct (decide (uriString (uri doc) = k)) as [<-|Hne].
      * rewrite lookup_insert_eq in Hk. injection Hk as <-.
        eexists. split; [apply elem_of_insertTimer; by left|done].
      * rewrite lookup_insert_ne in Hk by done.
        destruct (Hlive k id Hk) as (tm & Htm & Hid & Hkey).
        exists tm. split; [|done]. apply elem_of_insertTimer. right.
        apply Hkeep; [done|congruence].
    + unfold handle, onDidChangeTextDocument. by rewrite Hsub, Hcfg, Hpy.
    + unfold handle, onDidChangeTextDocument. by rewrite Hsub, Hcfg.
  - destruct (close_fields h doc st Hsub) as (Hq & Ht).
    destruct (timersOkOn_cancel _ _ _ (uriString (uri doc)) Hok)
      as (_ & _ & Hkeep & _).
    intros k id Hk. rewrite Ht in Hk. rewrite Hq.
    apply lookup_delete_Some in Hk as [Hne Hk].
    destruct (Hlive k id Hk) as (tm & Htm & Hid & Hkey).
    exists tm. split; [|done]. apply Hkeep; [done|congruence].
  - unfold handle. by rewrite Hsub.
  - unfold handle, lintFileCommand. rewrite Hsub. cbn [negb]. destruct ed as [doc|]; [|done].
    destruct (lintDocument_frame h doc st) as (? & ? & _). by eapply tableLive_frame.
  - unfold handle. rewrite Hsub. cbn [negb]. case_match; [|done].
    match goal with |- tableLive (onExit ?d ?o ?e ?s) =>
      destruct (onExit_frame d o e s) as (? & ? & _) end.
    by eapply tableLive_frame.
  - unfold handle. by rewrite Hsub.
Qed.

Lemma fireHead_tableLive h tm rest st :
  timersOk st → tableLive st → timerQueue st = tm :: rest →
  tableLive (fireHead h tm rest st).
Proof.
  intros Hok Hlive Hq. unfold fireHead, debounceCallback.
  match goal with |- tableLive (lintDocument h ?d ?s) =>
    destruct (lintDocument_frame h d s) as (H1 & H2 & _);
    apply (tableLive_frame s); [done|done|] end.
  intros k id Hk. cbn in Hk. cbn [timerQueue setDebounceTimers setTimerQueue].
  apply lookup_delete_Some in Hk as [Hne Hk].
  destruct (Hlive k id Hk) as (x & Hx & Hid & Hkey).
  exists x. split; [|done]. rewrite Hq in Hx.
  apply elem_of_cons in Hx as [->|Hx]; [congruence|done].
Qed.

Lemma runTimers_tableLive h fuel t : ∀ st,
  timersOk st → tableLive st → tableLive (runTimers h fuel t st).
Proof.
  induction fuel as [|fuel IH]; intros st Hok Hlive; [done|].
  destruct (timerQueue st) as [|tm rest] eqn:Hq.
  { cbn [runTimers]. by rewrite Hq. }
  rewrite (runTimers_step _ _ _ _ _ _ Hq).
  destruct (due tm <=? t); [|done].
  apply IH; [by apply fireHead_ok|by apply fireHead_tableLive].
Qed.

Lemma step_tableLive h st e :
  timersOk st → tableLive st → tableLive (step h st e).
Proof.
  intros Hok Hlive. unfold step.
  apply handle_tableLive; [by apply advance_ok|].
  unfold advance. apply (tableLive_frame (runTimers h (length (timerQueue st)) e.1 st));
    [done|done|]. by apply runTimers_tableLive.
Qed.

Lemma run_tableLive h trace : ∀ st,
  timersOk st → tableLive st → tableLive (run h st trace).
Proof.
  induction trace as [|e trace IH]; intros st Hok Hlive; [done|].
  apply IH; [by apply step_ok|by apply step_tableLive].
Qed.

Lemma activate_tableLive h docs editor : tableLive (activate h docs editor).
Proof.
  intros k id Hk.
  assert (Ht : debounceTimers (activate h docs editor) = ∅).
  { unfold activate. destruct (deployScripts h); [done|].
    match goal with |- context [foldl ?f ?s docs] =>
      destruct (foldl_lint_frame h docs s) as (_ & H2 & _) end.
    repeat case_match; simpl; rewrite ?H2; done. }
  by rewrite Ht, lookup_empty in Hk.
Qed.

(** X15: in every state reached from activation the timer table and the
    timer queue agree: a document identity has at most one pending timer,
    the table holds its handle, and the table has an entry for an identity
    exactly when a timer is pending for it. *)
Theorem timer_table_matches_queue (h : Host) (docs : list TextDocument)
    (editor : option TextDocument) (trace : list (Z * event)) (key : jsstring) :
  let st := run h (activate h docs editor) trace in
  (length (pendingFor key st) ≤ 1)%nat
  ∧ (∀ tm, tm ∈ pendingFor key st → debounceTimers st !! key = Some (tid tm))
  ∧ (is_Some (debounceTimers st !! key) ↔ pendingFor key st ≠ []).
Proof.
  intros st.
  destruct (run_ok h trace _ (proj1 (activate_ok h docs editor))) as (Hok & _).
  pose proof (run_tableLive h trace _ (proj1 (activate_ok h docs editor))
                (activate_tableLive h docs editor)) as Hlive.
  fold st in Hok, Hlive.
  assert (Hreg : ∀ tm, tm ∈ pendingFor key st → debounceTimers st !! key = Some (tid tm)).
  { intros tm [Hk Htm]%list_elem_of_filter. destruct Hok as (_ & _ & Hr & _).
    destruct (Hr tm Htm) as (H & _). by rewrite Hk in H. }
  split; [|split; [done|]].
  - destruct (pendingFor key st) as [|a [|b r]] eqn:Hp; [simpl; lia|simpl; lia|].
    exfalso.
    assert (Ha : a ∈ pendingFor key st) by (rewrite Hp; left).
    assert (Hb : b ∈ pendingFor key st) by (rewrite Hp; right; left).
    assert (Hnd : NoDup (pendingFor key st)).
    { apply NoDup_filter. destruct Hok as (_ & Hn & _). by apply NoDup_fmap_1 in Hn. }
    rewrite Hp in Hnd. apply NoDup_cons in Hnd as [Hnot _].
    apply list_elem_of_filter in Ha as [Hka Ha], Hb as [Hkb Hb].
    assert (a = b) by (eapply timersOkOn_same_key; [exact Hok|done|done|congruence]).
    subst b. apply Hnot. left.
  - split.
    + intros [id Hid] Hnil. destruct (Hlive key id Hid) as (tm & Htm & _ & Hk).
      assert (Hin : tm ∈ pendingFor key st) by (by apply list_elem_of_filter).
      rewrite Hnil in Hin. by apply elem_of_nil in Hin.
    + intros Hne. destruct (pendingFor key st) as [|tm r] eqn:Hp; [done|].
      exists (tid tm). apply Hreg. left.
Qed.

Lemma foldl_clearTimeout ids : ∀ st,
  let st' := foldl (fun st timer => clearTimeout timer st) st ids in
  timerQueue st' = filter (fun tm => tid tm ∉ ids) (timerQueue st)
  ∧ debounceTimers st' = debounceTimers st
  ∧ launches st' = launches st
  ∧ statusBarItem st' = statusBarItem st
  ∧ clock st' = clock st.
Proof.
  induction ids as [|id ids IH]; intros st.
  { cbn. split; [|done]. symmetry. apply filter_all. intros x _ Hin.
    by apply elem_of_nil in Hin. }
  cbn [foldl]. cbv zeta.
  destruct (IH (clearTimeout id st)) as (H1 & H2 & H3 & H4 & H5).
  cbv zeta in H1, H2, H3, H4, H5. rewrite H1, H2, H3, H4, H5.
  split; [|done]. unfold clearTimeout. cbn. rewrite list_filter_filter.
  apply list_filter_iff. intros x. rewrite not_elem_of_cons. tauto.
Qed.

(** X16: deactivation in any state reached from activation leaves no timer
    in the queue, an empty timer table and an empty diagnostic collection,
    starts nothing, and afterwards no run starts however much time passes. *)
Theorem deactivate_clears_everything (h : Host) (docs : list TextDocument)
    (editor : option TextDocument) (trace : list (Z * event)) :
  let st := run h (activate h docs editor) trace in
  let st' := deactivate st in
  timerQueue st' = []
  ∧ debounceTimers st' = ∅
  ∧ diagnosticCollection st' = ∅
  ∧ launches st' = launches st
  ∧ visible (statusBarItem st') = false
  ∧ ∀ t, launches (advance h t st') = launches st.
Proof.
  intros st st'.
  destruct (run_ok h trace _ (proj1 (activate_ok h docs editor))) as (Hok & _).
  fold st in Hok. subst st'. unfold deactivate.
  destruct (foldl_clearTimeout (map snd (map_to_list (debounceTimers st))) st)
    as (H1 & H2 & H3 & H4 & H5).
  cbv zeta in H1, H2, H3, H4, H5.
  assert (Hq : filter (fun tm => tid tm ∉ map snd (map_to_list (debounceTimers st)))
                 (timerQueue st) = []).
  { apply filter_none. intros x Hx Hnot. apply Hnot.
    destruct Hok as (_ & _ & Hr & _). destruct (Hr x Hx) as (Hreg & _).
    apply list_elem_of_fmap. exists (tkey x, tid x). split; [done|].
    by apply elem_of_map_to_list. }
  unfold setStatusBar, setDiagnostics, setDebounceTimers.
  cbn [timerQueue debounceTimers diagnosticCollection launches statusBarItem visible].
  rewrite H1, H3, Hq. do 5 (split; [done|]).
  intros t. rewrite advance_empty by done. done.
Qed.

(* ====================================================================== *)
(** * A save inside the debounce window; what the resolver returns *)
(* ====================================================================== *)

(** X17: saving does not cancel a pending debounce timer.  With the change
    and save triggers on, a change event at [t] followed by a save of the
    same document inside the 600 ms window starts two runs: one at the
    save, one when the timer fires at [t + 600]. *)
Theorem save_keeps_debounce_timer (h : Host) (docs : list TextDocument)
    (editor : option TextDocument) (history : list (Z * event))
    (doc : TextDocument) (lp : jsstring) (t t' T : Z) :
  let st0 := run h (activate h docs editor) history in
  let key := uriString (uri doc) in
  subscribed st0 = true →
  getBoolean (configuration h) (js "lintOnChange") false = true →
  getBoolean (configuration h) (js "lintOnSave") true = true →
  eligible doc = true →
  findLinterPath h (deployedLinterPath st0) doc = Some lp →
  nonEmpty lp = true →
  clock st0 ≤ t → t ≤ t' → t' < t + 600 → t + 600 ≤ T →
  ∃ p1 p2,
    launchesFor key
      (run h st0 [(t, DidChange doc); (t', DidSave doc); (T, Tick)])
    = launchesFor key (advance h t st0) ++ [p1; p2]
    ∧ started p1 = t' ∧ started p2 = t + 600
    ∧ target p1 = doc ∧ target p2 = doc.
Proof.
  intros st0 key Hsub Hchange Hsave Helig Hres Hlp Hclock Ht' Hwin HT.
  destruct (run_ok h history _ (proj1 (activate_ok h docs editor))) as (Hok & _ & _).
  fold st0 in Hok. subst key.
  change (run h st0 [(t, DidChange doc); (t', DidSave doc); (T, Tick)])
    with (step h (step h (step h st0 (t, DidChange doc)) (t', DidSave doc)) (T, Tick)).
  destruct (step_change_first h doc _ Helig Hchange t st0 Hok Hsub eq_refl)
    as (Harm & Hl1).
  rewrite Z.max_r in Harm by done.
  set (st1 := step h st0 (t, DidChange doc)) in *.
  pose proof (armed_own _ _ _ _ Harm) as Hown1.
  destruct Harm as (Hok1 & Hsub1 & Hdep1 & Hc1 & id & Hp1).
  (* the save *)
  destruct (advance_ok h t' st1 Hok1) as (Hok1' & Hd1' & Hs1' & Hc1').
  destruct (advance_key h doc _ lp Helig Hres Hlp t' st1 Hok1 Hdep1 Hown1)
    as (Hp1' & f1 & Hlf1 & Hm1 & _).
  rewrite Hp1 in Hp1', Hm1.
  rewrite filter_cons_True, filter_nil in Hp1' by (simpl; lia).
  rewrite filter_cons_False, filter_nil in Hm1 by (simpl; lia).
  destruct f1; [|done]. rewrite app_nil_r in Hlf1.
  set (st1' := advance h t' st1) in *.
  destruct (lintDocument_launchesFor_own h doc st1' lp Helig)
    as (p1 & Hl2 & Hs2 & Ht2); [congruence|done|].
  destruct (lintDocument_frame h doc st1') as (Fq & Ft & Fn & Fc & Fd & Fs).
  set (st2 := step h st1 (t', DidSave doc)).
  assert (Est2 : st2 = lintDocument h doc st1').
  { subst st2. unfold step. cbn [fst snd]. fold st1'. unfold handle.
    rewrite Hs1', Hsub1. cbn [negb]. unfold onDidSaveTextDocument. by rewrite Hsave. }
  assert (Hok2 : timersOk st2).
  { rewrite Est2. by apply (timersOk_frame st1'). }
  assert (Hp2 : pendingFor (uriString (uri doc)) st2
                = [{| tid := id; due := t + 600; tkey := uriString (uri doc);
                      tdoc := doc |}]).
  { rewrite Est2. unfold pendingFor. rewrite Fq. exact Hp1'. }
  assert (Hc2 : clock st2 = t').
  { rewrite Est2, Fc, Hc1', Hc1. lia. }
  assert (Hown2 : ownTimersOk (uriString (uri doc)) doc st2).
  { intros tm Htm Hk.
    assert (Hin : tm ∈ pendingFor (uriString (uri doc)) st2)
      by (by apply list_elem_of_filter).
    rewrite Hp2 in Hin. apply list_elem_of_singleton in Hin. subst tm.
    simpl. split; [done|lia]. }
  (* the timer *)
  destruct (advance_key h doc _ lp Helig Hres Hlp T st2 Hok2) as (_ & f2 & Hlf2 & Hm2 & Hf2);
    [rewrite Est2; congruence|done|].
  rewrite Hp2, filter_cons_True, filter_nil in Hm2 by (simpl; lia).
  destruct f2 as [|p2 [|? ?]]; try done.
  simpl in Hm2. injection Hm2 as Hm2.
  exists p1, p2.
  assert (Efinal : step h st2 (T, Tick) = advance h T st2).
  { unfold step. cbn [fst snd]. unfold handle.
    destruct (advance_ok h T st2 Hok2) as (_ & _ & -> & _).
    rewrite Est2, Fs, Hs1', Hsub1. done. }
  rewrite Efinal, Hlf2, Est2, Hl2, Hlf1, Hl1, <- app_assoc.
  split; [done|]. split; [by rewrite Hs2, Hc1', Hc1, Z.max_r by lia|].
  split; [done|]. split; [done|]. by inversion Hf2.
Qed.

Lemma save_keeps_debounce_timer_witness :
  ∃ p1 p2,
    launchesFor (uriString (uri devDocument))
      (run deployedHost (run deployedHost (activate deployedHost [] None) [])
         [(0, DidChange devDocument); (200, DidSave devDocument); (1000, Tick)])
    = launchesFor (uriString (uri devDocument))
        (advance deployedHost 0
           (run deployedHost (activate deployedHost [] None) [])) ++ [p1; p2]
    ∧ started p1 = 200 ∧ started p2 = 0 + 600
    ∧ target p1 = devDocument ∧ target p2 = devDocument.
Proof.
  apply (save_keeps_debounce_timer deployedHost [] None [] devDocument
           (js "/store/tangolint.py") 0 200 1000);
    vm_compute; first [reflexivity | discriminate].
Defined.

(** X18: the resolver only returns a path it found on disk. *)
Theorem resolved_path_exists (h : Host) (deployed : option jsstring)
    (document : TextDocument) (p : jsstring) :
  findLinterPath h deployed document = Some p → existsSync h p = true.
Proof.
  unfold findLinterPath.
  destruct (nonEmpty _ && existsSync h _) eqn:Hc.
  { intros [= <-]. by apply andb_true_iff in Hc as [_ ?]. }
  destruct (truthyPath deployed && from_option (existsSync h) false deployed) eqn:Hd.
  { intros ->. by apply andb_true_iff in Hd as [_ ?]. }
  destruct (getWorkspaceFolder h (uri document)) as [ws|]; [|done].
  destruct (existsSync h (path_join h (fsPath ws) (js "tangolint.py"))) eqn:Hw; [|done].
  by intros [= <-].
Qed.

Lemma resolved_path_exists_witness :
  existsSync legacyHost (js "/ws/tangolint.py") = true.
Proof.
  apply (resolved_path_exists legacyHost (Some (js "/store/tangolint.py")) devDocument).
  vm_compute. reflexivity.
Defined.
